(** * WaterDashboard: the normalisation and merge pipeline of water_export_cli.py

    A shallow embedding of the time-label parser, the alert classifier, the
    record normaliser, the incremental merger and the fetch-window planner of
    [water_export_cli.py], followed by the properties proved about them.

    Conventions.
    - Python [float] is the kernel's binary64 [float]: comparisons, subtraction
      and truthiness are the IEEE operations CPython uses.
    - Python [str] is [str], a list of characters (code points 0..255).
    - A Python function that can raise returns [res]; a [try]/[except] is a
      match on [Raise].
    - A frame of pandas is the list of its rows. A cell keeps the type the
      frame gives it: the ids of the batch are texts, the ids of the frame
      read from the file are what [pd.read_csv] made of the column.
    - What the interpreter and its libraries supply ([float()] on text,
      [round(_, 2)], [str()] of non-text values, the time-zone conversion of an
      epoch instant) is the class [Runtime]; every definition and theorem is
      stated for an arbitrary instance. *)

From Stdlib Require Import ZArith List Bool Ascii String Lia Floats.
From Stdlib Require Import DecimalString Sorted Permutation.
Import ListNotations.

Local Open Scope Z_scope.

(* ================================================================== *)
(** * Text *)

Definition str := list ascii.

(** A literal of the source. *)
Definition L (s : string) : str := list_ascii_of_string s.

Definition code (c : ascii) : Z := Z.of_nat (nat_of_ascii c).

Fixpoint str_eqb (a b : str) : bool :=
  match a, b with
  | [], [] => true
  | x :: a', y :: b' => Ascii.eqb x y && str_eqb a' b'
  | _, _ => false
  end.

(** [c.isdigit()] / the class [\d], on code points below 256. *)
Definition is_digit (c : ascii) : bool := (48 <=? code c) && (code c <=? 57).

(** [c.isspace()] / the class [\s], on code points below 256:
    TAB..CR, FS..US, space, NEL and NBSP. *)
Definition is_space (c : ascii) : bool :=
  let n := code c in
  ((9 <=? n) && (n <=? 13)) || ((28 <=? n) && (n <=? 32)) || (n =? 133) || (n =? 160).

(** [s.lstrip()], [s.rstrip()], [s.strip()]. *)
Fixpoint lstrip (s : str) : str :=
  match s with
  | c :: s' => if is_space c then lstrip s' else s
  | [] => []
  end.

Definition rstrip (s : str) : str :=
  fold_right (fun c acc =>
                match acc with
                | [] => if is_space c then [] else [c]
                | _ :: _ => c :: acc
                end) [] s.

Definition strip (s : str) : str := rstrip (lstrip s).

(** [s.split(sep)] for a one-character separator: never the empty list. *)
Fixpoint split (sep : ascii) (s : str) : list str :=
  match s with
  | [] => [[]]
  | c :: s' =>
      if Ascii.eqb c sep then [] :: split sep s'
      else match split sep s' with
           | p :: ps => (c :: p) :: ps
           | [] => [[c]]
           end
  end.

(** [int(s)] on a run of decimal digits. *)
Definition int_of_digits (s : str) : Z :=
  fold_left (fun acc c => 10 * acc + (code c - 48)) s 0.

(** [str(n)] for an integer. *)
Definition str_of_Z (n : Z) : str := L (NilZero.string_of_int (Z.to_int n)).

(* ================================================================== *)
(** * Exceptions *)

Inductive exn := ValueError | TypeError | AttributeError | OverflowError.

Inductive res (A : Type) :=
| Ok (a : A)
| Raise (e : exn).
Arguments Ok {A} a.
Arguments Raise {A} e.

Definition bind {A B} (m : res A) (k : A -> res B) : res B :=
  match m with
  | Ok a => k a
  | Raise e => Raise e
  end.

Notation "x <- m ;; k" := (bind m (fun x => k))
  (at level 61, m at next level, right associativity).

(** [try: body except ValueError: pass]: the body's value, or nothing when it
    raised [ValueError]; any other exception goes on to the caller. *)
Definition except_ValueError {A} (body : res A) : res (option A) :=
  match body with
  | Ok a => Ok (Some a)
  | Raise ValueError => Ok None
  | Raise e => Raise e
  end.

(** [try: body except: return None] (a bare [except]). *)
Definition except_all {A} (body : res (option A)) : option A :=
  match body with
  | Ok r => r
  | Raise _ => None
  end.

Fixpoint mapM {A B} (f : A -> res B) (l : list A) : res (list B) :=
  match l with
  | [] => Ok []
  | a :: l' => b <- f a ;; bs <- mapM f l' ;; Ok (b :: bs)
  end.

(* ================================================================== *)
(** * JSON values and dictionaries *)

#[local] Unset Elimination Schemes.
Inductive json :=
| JNull
| JBool (b : bool)
| JInt (n : Z)
| JFloat (x : float)
| JStr (s : str)
| JArr (l : list json)
| JObj (kv : list (str * json)).
#[local] Set Elimination Schemes.

Definition pydict := list (str * json).

Fixpoint lookup {V} (d : list (str * V)) (key : str) : option V :=
  match d with
  | [] => None
  | (k, v) :: d' => if str_eqb k key then Some v else lookup d' key
  end.

(** [d.get(key, default)] and [d.get(key)]. *)
Definition get_default (d : pydict) (key : str) (default : json) : json :=
  match lookup d key with
  | Some v => v
  | None => default
  end.

Definition get (d : pydict) (key : str) : json := get_default d key JNull.

(** Truthiness of a float: [x != 0.0] (so nan is true, -0.0 is false). *)
Definition truthy_float (x : float) : bool := negb (PrimFloat.eqb x 0%float).

(** Truthiness of an optional float: [None] and zero are false. *)
Definition truthy_opt (o : option float) : bool :=
  match o with
  | Some x => truthy_float x
  | None => false
  end.

(** Truthiness of a JSON value as Python sees it. *)
Definition truthy (v : json) : bool :=
  match v with
  | JNull => false
  | JBool b => b
  | JInt n => negb (n =? 0)
  | JFloat x => truthy_float x
  | JStr s => match s with [] => false | _ => true end
  | JArr l => match l with [] => false | _ => true end
  | JObj kv => match kv with [] => false | _ => true end
  end.

(* ================================================================== *)
(** * Calendar values *)

Record date := { d_year : Z; d_month : Z; d_day : Z }.

(** The object of [tz.gettz]: a zone read from the zone database. *)
Inductive tzinfo := TzFile (name : str).

Record datetime := {
  dt_year : Z; dt_month : Z; dt_day : Z; dt_hour : Z; dt_minute : Z;
  dt_tzinfo : option tzinfo
}.

(** What [strftime("%Y-%m-%d %H:%M")] keeps of a datetime: the cell of the
    timestamp column. For years 1000..9999 the order of the texts is
    the order of these tuples. *)
Record stamp := { s_year : Z; s_month : Z; s_day : Z; s_hour : Z; s_minute : Z }.

Definition date_of (dt : datetime) : date :=
  {| d_year := dt_year dt; d_month := dt_month dt; d_day := dt_day dt |}.

Definition strftime (dt : datetime) : stamp :=
  {| s_year := dt_year dt; s_month := dt_month dt; s_day := dt_day dt;
     s_hour := dt_hour dt; s_minute := dt_minute dt |}.

Definition date_of_stamp (s : stamp) : date :=
  {| d_year := s_year s; d_month := s_month s; d_day := s_day s |}.

(** [a < b] on dates. *)
Definition date_ltb (a b : date) : bool :=
  (d_year a <? d_year b)
  || ((d_year a =? d_year b)
      && ((d_month a <? d_month b)
          || ((d_month a =? d_month b) && (d_day a <? d_day b)))).

Definition is_leap (y : Z) : bool :=
  (y mod 4 =? 0) && (negb (y mod 100 =? 0) || (y mod 400 =? 0)).

Definition days_in_month (y m : Z) : Z :=
  if m =? 2 then (if is_leap y then 29 else 28)
  else if (m =? 4) || (m =? 6) || (m =? 9) || (m =? 11) then 30
  else 31.

(** An argument that fits a C [int]. *)
Definition c_int (n : Z) : bool := (- 2 ^ 31 <=? n) && (n <? 2 ^ 31).

Definition valid_fields (y m d hh mi : Z) : bool :=
  (1 <=? y) && (y <=? 9999) && (1 <=? m) && (m <=? 12)
  && (1 <=? d) && (d <=? days_in_month y m)
  && (0 <=? hh) && (hh <=? 23) && (0 <=? mi) && (mi <=? 59).

(** [datetime(y, m, d, hh, mi)]: [OverflowError] for an argument beyond a C
    int, [ValueError] for one out of its calendar range. *)
Definition datetime_new (y m d hh mi : Z) : res datetime :=
  if negb (c_int y && c_int m && c_int d && c_int hh && c_int mi)
  then Raise OverflowError
  else if valid_fields y m d hh mi
  then Ok {| dt_year := y; dt_month := m; dt_day := d; dt_hour := hh;
             dt_minute := mi; dt_tzinfo := None |}
  else Raise ValueError.

(** [dt.replace(tzinfo=z)]. *)
Definition replace_tzinfo (dt : datetime) (z : tzinfo) : datetime :=
  {| dt_year := dt_year dt; dt_month := dt_month dt; dt_day := dt_day dt;
     dt_hour := dt_hour dt; dt_minute := dt_minute dt; dt_tzinfo := Some z |}.

(** Proleptic Gregorian ordinals, as [date.toordinal] and [date.fromordinal]
    compute them (day 1 is 0001-01-01). *)
Definition days_before_year (y : Z) : Z :=
  let p := y - 1 in p * 365 + p / 4 - p / 100 + p / 400.

Definition days_before_month_table (m : Z) : Z :=
  nth (Z.to_nat m) [0; 0; 31; 59; 90; 120; 151; 181; 212; 243; 273; 304; 334] 0.

Definition days_before_month (y m : Z) : Z :=
  days_before_month_table m + (if (2 <? m) && is_leap y then 1 else 0).

Definition toordinal (d : date) : Z :=
  days_before_year (d_year d) + days_before_month (d_year d) (d_month d) + d_day d.

Definition fromordinal (n : Z) : date :=
  let n := n - 1 in
  let n400 := n / 146097 in
  let n := n mod 146097 in
  let n100 := n / 36524 in
  let n := n mod 36524 in
  let n4 := n / 1461 in
  let n := n mod 1461 in
  let n1 := n / 365 in
  let n := n mod 365 in
  let y := n400 * 400 + 1 + n100 * 100 + n4 * 4 + n1 in
  if (n1 =? 4) || (n100 =? 4)
  then {| d_year := y - 1; d_month := 12; d_day := 31 |}
  else
    let leapyear := (n1 =? 3) && (negb (n4 =? 24) || (n100 =? 3)) in
    let m := Z.shiftr (n + 50) 5 in
    let preceding :=
      days_before_month_table m + (if (2 <? m) && leapyear then 1 else 0) in
    if n <? preceding
    then
      let m' := m - 1 in
      let dim :=
        if m' =? 2 then (if leapyear then 29 else 28)
        else if (m' =? 4) || (m' =? 6) || (m' =? 9) || (m' =? 11) then 30
        else 31 in
      {| d_year := y; d_month := m'; d_day := n - (preceding - dim) + 1 |}
    else {| d_year := y; d_month := m; d_day := n - preceding + 1 |}.

(** [d - timedelta(days=n)], for a result within the calendar. *)
Definition date_minus_days (d : date) (n : Z) : date :=
  fromordinal (toordinal d - n).

(* ================================================================== *)
(** * What the interpreter supplies *)

Class Runtime := {
  (** [float(s)] on text; [None] when it raises [ValueError]. *)
  float_of_str : str -> option float;
  (** [round(x, 2)] on a float. *)
  round2 : float -> float;
  (** [str(v)] for a float, an array or an object. *)
  repr_other : json -> str;
  (** [datetime.fromtimestamp(ms / 1000.0, tz=utc).astimezone(TZ_LOCAL)];
      [None] when any step raises. *)
  local_of_epoch_ms : Z -> option datetime
}.

(** [str(v)]. *)
Definition py_str `{Runtime} (v : json) : str :=
  match v with
  | JNull => L "None"
  | JBool true => L "True"
  | JBool false => L "False"
  | JInt n => str_of_Z n
  | JStr s => s
  | _ => repr_other v
  end.

(* ================================================================== *)
(** * Regular expressions of the source

    Both patterns of [parse_river_dt], and the one of [ms_to_dt_local], are a
    sequence of pieces, each a character class under a greedy bound, some of
    them captured. [re.search] tries the start positions from the left; at one
    position every piece first takes as many characters as it may and gives
    them back one at a time until the rest of the pattern matches. *)

Inductive cls := Digit | Space | Chr (c : ascii).

Definition cls_test (k : cls) (c : ascii) : bool :=
  match k with
  | Digit => is_digit c
  | Space => is_space c
  | Chr x => Ascii.eqb c x
  end.

Record piece := {
  p_cls : cls;
  p_min : nat;
  p_max : option nat;   (* [None]: unbounded *)
  p_capture : bool
}.

(** A match: the matched text ([group(0)]) and the captured groups. *)
Record rmatch := { m_text : str; m_groups : list str }.

Definition group (m : rmatch) (i : nat) : str :=
  match i with
  | O => m_text m
  | S j => nth j (m_groups m) []
  end.

(** How many leading characters of [s] are in the class, at most [bound]. *)
Fixpoint run_length (k : cls) (bound : option nat) (s : str) : nat :=
  match s with
  | c :: s' =>
      if cls_test k c
      then match bound with
           | Some O => O
           | Some (S b) => S (run_length k (Some b) s')
           | None => S (run_length k None s')
           end
      else O
  | [] => O
  end.

Definition take_piece (p : piece) (n : nat) (s : str) (m : rmatch) : rmatch :=
  {| m_text := firstn n s ++ m_text m;
     m_groups := if p_capture p then firstn n s :: m_groups m else m_groups m |}.

(** Give back characters, longest first, down to the piece's minimum. *)
Fixpoint backtrack (p : piece) (rest : str -> option rmatch) (s : str) (n : nat)
  : option rmatch :=
  if (n <? p_min p)%nat then None
  else
    match rest (skipn n s) with
    | Some m => Some (take_piece p n s m)
    | None =>
        match n with
        | O => None
        | S n' => backtrack p rest s n'
        end
    end.

Fixpoint match_here (ps : list piece) (s : str) : option rmatch :=
  match ps with
  | [] => Some {| m_text := []; m_groups := [] |}
  | p :: ps' => backtrack p (match_here ps') s (run_length (p_cls p) (p_max p) s)
  end.

(** [re.search(ps, s)]. *)
Fixpoint search (ps : list piece) (s : str) : option rmatch :=
  match match_here ps s with
  | Some m => Some m
  | None =>
      match s with
      | [] => None
      | _ :: s' => search ps s'
      end
  end.

Definition one (c : ascii) : piece :=
  {| p_cls := Chr c; p_min := 1; p_max := Some 1%nat; p_capture := false |}.

(** [(\d{1,2})] *)
Definition digits12 : piece :=
  {| p_cls := Digit; p_min := 1; p_max := Some 2%nat; p_capture := true |}.

(** [\s+] *)
Definition spaces : piece :=
  {| p_cls := Space; p_min := 1; p_max := None; p_capture := false |}.

(** [(\d{1,2})h\s+(\d{1,2})/(\d{1,2})] *)
Definition re_new : list piece :=
  [digits12; one "h"; spaces; digits12; one "/"; digits12].

(** [(\d{1,2})h(\d{1,2})/(\d{1,2})] *)
Definition re_old : list piece :=
  [digits12; one "h"; digits12; one "/"; digits12].

(** [\d+] *)
Definition re_digits : list piece :=
  [{| p_cls := Digit; p_min := 1; p_max := None; p_capture := false |}].

(* ================================================================== *)
(** * Helpers of the source *)

Section Helpers.
Context `{Runtime}.

(** [TZ_LOCAL = tz.gettz("Asia/Ho_Chi_Minh")]  (GMT+7) *)
Definition TZ_LOCAL : option tzinfo := Some (TzFile (L "Asia/Ho_Chi_Minh")).

(** [get_first_num(d, key)] *)
Definition get_first_num (d : pydict) (key : str) : option float :=
  let v := get d key in
  if negb (truthy v) then None
  else
    let parts := split "," (py_str v) in
    match float_of_str (hd [] parts) with
    | Some val => if PrimFloat.ltb 0%float val then Some val else None
    | None => None
    end.

(** [t and level >= t] *)
Definition reached (level : float) (t : option float) : bool :=
  truthy_opt t
  && match t with
     | Some x => PrimFloat.leb x level
     | None => false
     end.

(** [classify_exceed(level, bd1, bd2, bd3, hist)] *)
Definition classify_exceed (level bd1 bd2 bd3 hist : option float) : Z :=
  match level with
  | None => 0
  | Some level =>
      if reached level hist then 4
      else if reached level bd3 then 3
      else if reached level bd2 then 2
      else if reached level bd1 then 1
      else 0
  end.

(** [val - t]: [TypeError] when [t] is [None]. *)
Definition minus (val : float) (t : option float) : res float :=
  match t with
  | Some x => Ok (PrimFloat.sub val x)
  | None => Raise TypeError
  end.

(** The [try] block of [calculate_alert_diff]; its first argument [level] is
    the tier. *)
Definition calculate_alert_diff_try (level : Z) (val : float)
  (bd1 bd2 bd3 hist : option float) : res (option float) :=
  let rounded (diff : res float) := d <- diff ;; Ok (Some (round2 d)) in
  if level =? 4 then rounded (minus val hist)
  else if level =? 3 then rounded (minus val bd3)
  else if level =? 2 then rounded (minus val bd2)
  else if level =? 1 then rounded (minus val bd1)
  else if truthy_opt bd1 then rounded (minus val bd1)
  else Ok None.

(** [calculate_alert_diff(level, val, bd1, bd2, bd3, hist)] *)
Definition calculate_alert_diff (level : Z) (val bd1 bd2 bd3 hist : option float)
  : option float :=
  match val with
  | None => None
  | Some val => except_all (calculate_alert_diff_try level val bd1 bd2 bd3 hist)
  end.

(** The datetime of a match, with the zone attached when there is one. *)
Definition localized (dt : datetime) : datetime :=
  match TZ_LOCAL with
  | Some z => replace_tzinfo dt z
  | None => dt
  end.

(** Case A of [parse_river_dt]: hour, day, month. [now_month] is
    [datetime.now(TZ_LOCAL).month]. Nothing when the pattern does not match or
    the [try] block ended in [ValueError]. *)
Definition case_new (clean : str) (current_year now_month : Z)
  : res (option datetime) :=
  match search re_new clean with
  | Some m_new =>
      except_ValueError
        (let hour := int_of_digits (group m_new 1) in
         let minute := 0 in
         let day := int_of_digits (group m_new 2) in
         let month := int_of_digits (group m_new 3) in
         let year_to_use :=
           if (month =? 12) && (now_month =? 1) then current_year - 1
           else current_year in
         dt <- datetime_new year_to_use month day hour minute ;;
         Ok (localized dt))
  | None => Ok None
  end.

(** Case B of [parse_river_dt]: hour, minute, day. *)
Definition case_old (clean : str) (current_year now_month : Z)
  : res (option datetime) :=
  match search re_old clean with
  | Some m_old =>
      except_ValueError
        (let hour := int_of_digits (group m_old 1) in
         let minute := int_of_digits (group m_old 2) in
         let day := int_of_digits (group m_old 3) in
         let month := now_month in
         dt <- datetime_new current_year month day hour minute ;;
         Ok (localized dt))
  | None => Ok None
  end.

(** [parse_river_dt(lbl, current_year)], the clock's month made explicit. *)
Definition parse_river_dt (lbl : str) (current_year now_month : Z)
  : res (option datetime) :=
  match lbl with
  | [] => Ok None
  | _ :: _ =>
      let clean := strip lbl in
      a <- case_new clean current_year now_month ;;
      match a with
      | Some dt => Ok (Some dt)
      | None => case_old clean current_year now_month
      end
  end.

(** [ms_to_dt_local(ms_str)] *)
Definition ms_to_dt_local (ms_str : json) : option datetime :=
  match search re_digits (py_str ms_str) with
  | Some m => local_of_epoch_ms (int_of_digits (group m 0))
  | None => None   (* [.group()] on [None]: AttributeError, caught *)
  end.

End Helpers.

(* ================================================================== *)
(** * Rows of the dataset *)

(** The column "type": the texts "Lake" and "River", in that order. *)
Inductive entity_type := Lake | River.

(** A cell of the column "id". In the batch it is a text: a station id or a
    lake code. The frame read from the file comes from [pd.read_csv] called
    without a dtype, which types the column as a whole from the look of its
    cells: int64 when every cell is an integer, texts when the column is kept
    as it is written. (A column typed float64 or bool, as ids such as "1.5" or
    "True" would make it, has no cell here.) *)
Inductive id_cell :=
| IdStr (s : str)
| IdInt (n : Z).

(** One row of a frame: a dictionary appended to [final_rows], or a row of
    the frame read from the file. The columns the merge reads by name, the
    level and status cells, and the remaining columns as written. The cells
    "name", "basin" and "province" hold what the dictionary was given, which
    is any value the provider sent; [JNull] is a missing cell ([None] in the
    batch, NaN in a frame read from the file). *)
Record Row := {
  r_type : entity_type;               (* "type" *)
  r_id : id_cell;                     (* "id" *)
  r_name : json;                      (* "name" *)
  r_basin : json;                     (* "basin" *)
  r_province : json;                  (* "province" *)
  r_timestamp_utc : option stamp;     (* "timestamp_utc" *)
  r_water_level_m : json;             (* "water_level_m" *)
  r_alert_status : json;              (* "alert_status" *)
  r_columns : list (str * json)
}.

(** A cell holding an optional float. *)
Definition cell (o : option float) : json :=
  match o with
  | Some x => JFloat x
  | None => JNull
  end.

(** The entry of a station in [cached_river_stations]: "river" is a text the
    scraper cut out of the popup, "name" the label of the feature, whatever
    value it is. *)
Record station_meta := {
  meta_river : str; meta_name : json; meta_x : json; meta_y : json
}.

(** The entry of a station in [STATION_CONFIG] (both keys optional). *)
Record station_conf := { sc_name : option str; sc_basin_recode : option str }.

(** The entry of a lake in [LAKE_CONFIG]. *)
Record lake_conf := {
  lc_name : str; lc_basin_recode : str; lc_province_recode : option str
}.

(** [alert_name_from_value(v)] (the texts without their diacritics, which lie
    beyond code point 255). *)
Definition alert_name_from_value (v : Z) : str :=
  if v =? 0 then L "Duoi BD1"
  else if v =? 1 then L "Tren BD1"
  else if v =? 2 then L "Tren BD2"
  else if v =? 3 then L "Tren BD3"
  else if v =? 4 then L "Tren lu lich su"
  else L "Khong xac dinh".

Section Normalizer.
Context `{Runtime}.

(** [config.get(key, d.get(dkey, fallback))]: the text of the configuration,
    else the value of the payload, else the fallback. *)
Definition recoded (conf : option str) (d : pydict) (dkey : str) (fallback : json)
  : json :=
  match conf with
  | Some s => JStr s
  | None => get_default d dkey fallback
  end.

(** The tokens the value parser reads as missing. *)
Definition placeholders : list str := [L "-"; L "null"; L ""; L "NULL"].

(** [float(x.strip()) if x.strip() not in ["-", "null", "", "NULL"] else None] *)
Definition parse_value (x : str) : res (option float) :=
  if negb (existsb (str_eqb (strip x)) placeholders)
  then match float_of_str (strip x) with
       | Some v => Ok (Some v)
       | None => Raise ValueError
       end
  else Ok None.

(** [(d.get("labels") or "").split(",")] *)
Definition labels_of (d : pydict) : res (list str) :=
  let v := get d (L "labels") in
  if truthy v
  then match v with
       | JStr s => Ok (split "," s)
       | _ => Raise AttributeError
       end
  else Ok (split "," []).

(** [values]: the list comprehension over [str(d.get("value", "")).split(",")]. *)
Definition values_of (d : pydict) : res (list (option float)) :=
  let raw_vals := split "," (py_str (get_default d (L "value") (JStr []))) in
  mapM parse_value raw_vals.

Section RiverStation.
Variable DEFAULT_START_DATE : date.
Variables curr_year now_month : Z.
Variable sid : str.
Variable meta : station_meta.
Variable config : station_conf.
Variable d : pydict.

Definition river_row (dt_local : datetime) (val : option float) : Row :=
  let bd1 := get_first_num d (L "bao_dong1") in
  let bd2 := get_first_num d (L "bao_dong2") in
  let bd3 := get_first_num d (L "bao_dong3") in
  let hist_m := get_first_num d (L "gia_tri_lu_lich_su") in
  let hist_y := get d (L "nam_lu_lich_su") in
  let alert_val := classify_exceed val bd1 bd2 bd3 hist_m in
  let alert_name := alert_name_from_value alert_val in
  let alert_diff := calculate_alert_diff alert_val val bd1 bd2 bd3 hist_m in
  {| r_type := River;
     r_id := IdStr sid;
     r_name := recoded (sc_name config) d (L "name_vn") (meta_name meta);
     r_basin := recoded (sc_basin_recode config) d (L "river_name")
                  (JStr (meta_river meta));
     r_province := get_default d (L "province_name") (JStr []);
     r_timestamp_utc := Some (strftime dt_local);
     r_water_level_m := cell val;
     r_alert_status := JStr alert_name;
     r_columns :=
       [(L "alert_value", JInt alert_val);
        (L "alert_diff_m", cell alert_diff);
        (L "bd1_m", cell bd1);
        (L "bd2_m", cell bd2);
        (L "bd3_m", cell bd3);
        (L "hist_flood_level_m", cell hist_m);
        (L "hist_flood_year", hist_y);
        (L "x", meta_x meta);
        (L "y", meta_y meta)] |}.

(** The loop over [range(min(len(labels), len(values)))]: the rows appended
    so far, and the exception that ended the loop, if any. *)
Fixpoint river_loop (pairs : list (str * option float)) (final_rows : list Row)
  : list Row * option exn :=
  match pairs with
  | [] => (final_rows, None)
  | (lbl, val) :: rest =>
      match parse_river_dt lbl curr_year now_month with
      | Raise e => (final_rows, Some e)
      | Ok None => river_loop rest final_rows
      | Ok (Some dt_local) =>
          if date_ltb (date_of dt_local) DEFAULT_START_DATE
          then river_loop rest final_rows
          else river_loop rest (final_rows ++ [river_row dt_local val])
      end
  end.

(** The [try] block of one station, from the decoded payload [d] on. *)
Definition river_station (final_rows : list Row) : list Row * option exn :=
  match (labels <- labels_of d ;; values <- values_of d ;; Ok (labels, values)) with
  | Raise e => (final_rows, Some e)
  | Ok (labels, values) => river_loop (combine labels values) final_rows
  end.

End RiverStation.

Section Lakes.
Variable DEFAULT_START_DATE : date.
Variable LAKE_CONFIG : list (str * lake_conf).

Definition lake_row (lc : str) (conf : lake_conf) (rec : pydict)
  (dt_local : option datetime) : Row :=
  {| r_type := Lake;
     r_id := IdStr lc;
     r_name := JStr (lc_name conf);
     r_basin := JStr (lc_basin_recode conf);
     r_province :=
       match lc_province_recode conf with
       | Some p => JStr p
       | None => get rec (L "ProvinceName")
       end;
     r_timestamp_utc := option_map strftime dt_local;
     r_water_level_m := get rec (L "TdMucNuoc");
     r_alert_status := get_default rec (L "XuThe") (JStr (L "N/A"));
     r_columns :=
       [(L "water_volume_m3", get rec (L "TdDungTich"));
        (L "design_volume_m3", get rec (L "TkDungTich"));
        (L "volume_percent", get rec (L "TiLeDungTichTdSoTk"));
        (L "inflow_m3s", get rec (L "QDen"));
        (L "outflow_m3s", get rec (L "QXa"));
        (L "normal_level_m", get rec (L "MucNuocDangBinhThuong"));
        (L "reinforced_level_m", get rec (L "MucNuocDangGiaCuong"));
        (L "alert_code", get rec (L "MucCanhBao"));
        (L "province_code", get rec (L "ProvinceCode"));
        (L "basin_code", get rec (L "BasinCode"));
        (L "x", get rec (L "X"));
        (L "y", get rec (L "Y"))] |}.

(** [lc in LAKE_CONFIG] and [LAKE_CONFIG[lc]]: only a text can be a key. *)
Definition lake_entry (lc : json) : option (str * lake_conf) :=
  match lc with
  | JStr code =>
      match lookup LAKE_CONFIG code with
      | Some conf => Some (code, conf)
      | None => None
      end
  | _ => None
  end.

(** The loop over [lake_data]. *)
Fixpoint lake_loop (lake_data : list pydict) (final_rows : list Row) : list Row :=
  match lake_data with
  | [] => final_rows
  | rec :: rest =>
      match lake_entry (get rec (L "LakeCode")) with
      | None => lake_loop rest final_rows
      | Some (lc, conf) =>
          let dt_local := ms_to_dt_local (get rec (L "ThoiGianCapNhat")) in
          match dt_local with
          | Some dt =>
              if date_ltb (date_of dt) DEFAULT_START_DATE
              then lake_loop rest final_rows
              else lake_loop rest (final_rows ++ [lake_row lc conf rec dt_local])
          | None => lake_loop rest (final_rows ++ [lake_row lc conf rec dt_local])
          end
      end
  end.

End Lakes.

Section Main.
Variable start : date.
Variables curr_year now_month : Z.
Variable STATION_CONFIG : list (str * station_conf).
Variable LAKE_CONFIG : list (str * lake_conf).

(** [STATION_CONFIG.get(sid, {})] *)
Definition station_conf_of (sid : str) : station_conf :=
  match lookup STATION_CONFIG sid with
  | Some config => config
  | None => {| sc_name := None; sc_basin_recode := None |}
  end.

(** The loop of [main] over the items of [cached_river_stations], each with
    the decoded answer of the provider, or nothing when the request failed,
    did not answer 200 or did not decode. *)
Fixpoint rivers_loop (stations : list (str * (station_meta * option pydict)))
  (final_rows : list Row) : list Row :=
  match stations with
  | [] => final_rows
  | (sid, (meta, response)) :: rest =>
      match response with
      | Some d =>
          rivers_loop rest
            (fst (river_station start curr_year now_month sid meta
                    (station_conf_of sid) d final_rows))
      | None => rivers_loop rest final_rows
      end
  end.

(** [final_rows] at the end of the two loops of [main]. *)
Definition collect (stations : list (str * (station_meta * option pydict)))
  (lake_data : list pydict) : list Row :=
  lake_loop start LAKE_CONFIG lake_data (rivers_loop stations []).

End Main.
End Normalizer.

(* ================================================================== *)
(** * Export and incremental merge *)

Definition lex (c1 c2 : comparison) : comparison :=
  match c1 with
  | Eq => c2
  | _ => c1
  end.

(** The order of texts: by code point, a prefix first. *)
Fixpoint str_compare (a b : str) : comparison :=
  match a, b with
  | [], [] => Eq
  | [], _ :: _ => Lt
  | _ :: _, [] => Gt
  | x :: a', y :: b' => lex (code x ?= code y) (str_compare a' b')
  end.

Definition type_compare (a b : entity_type) : comparison :=
  match a, b with
  | Lake, River => Lt
  | River, Lake => Gt
  | _, _ => Eq
  end.

Definition stamp_compare (a b : stamp) : comparison :=
  lex (s_year a ?= s_year b)
    (lex (s_month a ?= s_month b)
       (lex (s_day a ?= s_day b)
          (lex (s_hour a ?= s_hour b) (s_minute a ?= s_minute b)))).

(** A missing timestamp sorts last ([na_position="last"]). *)
Definition timestamp_compare (a b : option stamp) : comparison :=
  match a, b with
  | Some x, Some y => stamp_compare x y
  | Some _, None => Lt
  | None, Some _ => Gt
  | None, None => Eq
  end.

(** The key of a text column in the sort: its text, or nothing for a missing
    cell. *)
Definition text_key (v : json) : option str :=
  match v with
  | JStr s => Some s
  | _ => None
  end.

(** The order of a text column: texts by code point, a missing cell last
    ([na_position="last"]). *)
Definition text_compare (a b : option str) : comparison :=
  match a, b with
  | Some x, Some y => str_compare x y
  | Some _, None => Lt
  | None, Some _ => Gt
  | None, None => Eq
  end.

(** The order of [sort_values(["type", "basin", "name", "timestamp_utc"])] on
    rows whose basin and name are texts or missing. *)
Definition sort_compare (a b : Row) : comparison :=
  lex (type_compare (r_type a) (r_type b))
    (lex (text_compare (text_key (r_basin a)) (text_key (r_basin b)))
       (lex (text_compare (text_key (r_name a)) (text_key (r_name b)))
          (timestamp_compare (r_timestamp_utc a) (r_timestamp_utc b)))).

Definition row_leb (a b : Row) : bool :=
  match sort_compare a b with
  | Gt => false
  | _ => true
  end.

(** A sort on several columns sorts the rows lexicographically on the
    columns and is stable: among rows that compare equal the earlier stays
    first. *)
Fixpoint insert_row (r : Row) (l : list Row) : list Row :=
  match l with
  | [] => [r]
  | x :: l' => if row_leb r x then r :: l else x :: insert_row r l'
  end.

Definition stable_sort (l : list Row) : list Row := fold_right insert_row [] l.

(** The cells of a sort column this development orders: a text or a missing
    cell. *)
Definition sortable_cell (v : json) : bool :=
  match v with
  | JStr _ | JNull => true
  | _ => false
  end.

Definition sortable (r : Row) : bool :=
  sortable_cell (r_basin r) && sortable_cell (r_name r).

(** [sort_values(["type", "basin", "name", "timestamp_utc"])] on a frame
    whose basins and names are texts or missing. What the library does with
    a column that also holds a number, a list or a dictionary (a name the
    provider sent as such, or a column of the file read as numbers) is not
    modelled: the result is then [None]. *)
Definition sort_values (l : list Row) : option (list Row) :=
  if forallb sortable l then Some (stable_sort l) else None.

(** Equality of two cells of the column "id" in [drop_duplicates]: the
    equality of Python, where an integer is never equal to a text. *)
Definition id_eqb (a b : id_cell) : bool :=
  match a, b with
  | IdStr s, IdStr t => str_eqb s t
  | IdInt n, IdInt m => n =? m
  | _, _ => false
  end.

(** Equality on the subset ["type", id, timestamp] of [drop_duplicates]; two
    missing timestamps are equal. *)
Definition same_key (a b : Row) : bool :=
  match type_compare (r_type a) (r_type b),
        timestamp_compare (r_timestamp_utc a) (r_timestamp_utc b) with
  | Eq, Eq => id_eqb (r_id a) (r_id b)
  | _, _ => false
  end.

(** [drop_duplicates(subset=..., keep="last")]: a row stays when no later row
    has its key. *)
Fixpoint drop_duplicates_last (l : list Row) : list Row :=
  match l with
  | [] => []
  | r :: rest =>
      if existsb (same_key r) rest then drop_duplicates_last rest
      else r :: drop_duplicates_last rest
  end.

(** The export of [main] once [final_rows] is known not to be empty:
    [existing] is [None] when the file does not exist, [Some (Raise e)] when
    reading it fails, [Some (Ok df_old)] when it is read, with the cells as
    [pd.read_csv] typed them. The result is the frame written to the file
    ([None] where a sort is not modelled). *)
Definition merge (existing : option (res (list Row))) (final_rows : list Row)
  : option (list Row) :=
  match sort_values final_rows with
  | Some df =>
      match existing with
      | Some (Ok df_old) =>
          let combined := df_old ++ df in
          let combined := drop_duplicates_last combined in
          sort_values combined
      | Some (Raise _) => Some df
      | None => Some df
      end
  | None => None
  end.

(** What a run leaves in the file. *)
Inductive outcome :=
| NotWritten
| Written (frame : list Row).

(** The end of [main]: nothing is written for an empty batch. *)
Definition export (existing : option (res (list Row))) (final_rows : list Row)
  : option outcome :=
  match final_rows with
  | [] => Some NotWritten
  | _ :: _ => option_map Written (merge existing final_rows)
  end.

(** The text [to_csv] writes for a cell of the column "id". *)
Definition id_text (c : id_cell) : str :=
  match c with
  | IdStr s => s
  | IdInt n => str_of_Z n
  end.

(** The column "id" of the file as [pd.read_csv] returns it when every cell
    is a run of digits that fits int64, which is the case of a file that holds
    river rows only, a station id being a match of [\d+]: the column is int64,
    so "012" comes back as 12. A column with any other cell (a sign, a
    decimal point, a letter, an empty cell) is typed by rules that are not
    modelled: [None]. *)
Definition int64_literal (s : str) : bool :=
  negb (str_eqb s []) && forallb is_digit s && (int_of_digits s <? 2 ^ 63).

Definition read_id_column (cells : list str) : option (list id_cell) :=
  if forallb int64_literal cells
  then Some (map (fun s => IdInt (int_of_digits s)) cells)
  else None.

(* ================================================================== *)
(** * Fetch window *)

(** What the start of the program finds: no file, a file whose timestamp
    column cannot be read, or the column ([None] for a missing cell). *)
Inductive csv_meta :=
| NoFile
| Unreadable
| TimeColumn (col : list (option stamp)).

(** One step of the maximum over a column with missing cells. *)
Definition max_step (acc c : option stamp) : option stamp :=
  match acc, c with
  | None, _ => c
  | Some _, None => acc
  | Some a, Some b =>
      match stamp_compare a b with
      | Lt => Some b
      | _ => Some a
      end
  end.

(** [pd.to_datetime(col).max()]: the greatest present value, if any. *)
Definition column_max (col : list (option stamp)) : option stamp :=
  fold_left max_step col None.

(** [DEFAULT_END_DATE]: today's date in the local zone. *)
Definition DEFAULT_END_DATE (today : date) : date := today.

(** [DEFAULT_START_DATE], as the module computes it when it is loaded. *)
Definition DEFAULT_START_DATE (csv : csv_meta) (today : date) : date :=
  match csv with
  | TimeColumn col =>
      match column_max col with
      | None => date_minus_days (DEFAULT_END_DATE today) 6   (* ValueError, caught *)
      | Some last_dt =>
          let last_date := date_of_stamp last_dt in
          if date_ltb (DEFAULT_END_DATE today) last_date
          then date_minus_days (DEFAULT_END_DATE today) 6
          else last_date
      end
  | Unreadable => date_minus_days (DEFAULT_END_DATE today) 6
  | NoFile => date_minus_days (DEFAULT_END_DATE today) 6
  end.

(* ================================================================== *)
(** * The scan of the lake provider *)

(** [d + timedelta(days=n)], for a result within the calendar. *)
Definition date_plus_days (d : date) (n : Z) : date :=
  fromordinal (toordinal d + n).

(** [a <= b] on dates. *)
Definition date_leb (a b : date) : bool := negb (date_ltb b a).

Section Scan.
Variable LAKE_CONFIG : list (str * lake_conf).

(** The answer of the provider for one day: the records of the decoded
    array, or nothing when the request fails, is not answered 200 or does not
    decode. *)
Variable post : date -> option (list pydict).

(** [lc in LAKE_IDS], with [LAKE_IDS = set(LAKE_CONFIG.keys())]: [TypeError]
    for a code that cannot be hashed. *)
Definition in_LAKE_IDS (lc : json) : res bool :=
  match lc with
  | JStr code =>
      Ok match lookup LAKE_CONFIG code with
         | Some _ => true
         | None => false
         end
  | JArr _ => Raise TypeError
  | JObj _ => Raise TypeError
  | _ => Ok false
  end.

(** The loop over the records of one day, inside the [try]: an exception
    ends the day and keeps what was appended. *)
Fixpoint scan_records (recs : list pydict) (results : list pydict) : list pydict :=
  match recs with
  | [] => results
  | rec :: rest =>
      match in_LAKE_IDS (get rec (L "LakeCode")) with
      | Ok true => scan_records rest (results ++ [rec])
      | Ok false => scan_records rest results
      | Raise _ => results
      end
  end.

(** The [try] block of one day. *)
Definition scan_day (curr : date) (results : list pydict) : list pydict :=
  match post curr with
  | Some recs => scan_records recs results
  | None => results
  end.

(** [while curr <= DEFAULT_END_DATE], with [fuel] bounding the number of
    turns: [None] when the fuel runs out. *)
Fixpoint scan_loop (fuel : nat) (curr end_date : date) (results : list pydict)
  : option (list pydict) :=
  match fuel with
  | O => None
  | S fuel' =>
      if date_leb curr end_date
      then scan_loop fuel' (date_plus_days curr 1) end_date (scan_day curr results)
      else Some results
  end.

(** [scan_lakes_via_api()], for the window [start_date .. end_date]. *)
Definition scan_lakes_via_api (fuel : nat) (start_date end_date : date)
  : option (list pydict) :=
  scan_loop fuel start_date end_date [].

End Scan.

(* ================================================================== *)
(** * A reference runtime

    An executable instance of [Runtime], used to run the definitions on
    concrete inputs. [float_of_str] covers plain decimal literals (an optional
    sign, digits, an optional fraction), correctly rounded; [round2] is exact
    on every float; the local time is the instant moved by seven hours, the
    offset of the zone since 1975. *)

Module Ref.

Definition SF_of_Z (neg : bool) (n : Z) : SpecFloat.spec_float :=
  match n with
  | Zpos p => SpecFloat.S754_finite neg p 0
  | _ => SpecFloat.S754_zero neg
  end.

(** The float nearest to [n / d], for [0 <= n] and [0 < d]. *)
Definition nearest_quotient (neg : bool) (n d : Z) : float :=
  SF2Prim (SpecFloat.SFdiv prec emax (SF_of_Z neg n) (SF_of_Z false d)).

Fixpoint digits_only (s : str) : bool :=
  match s with
  | [] => true
  | c :: s' => is_digit c && digits_only s'
  end.

Definition unsigned_literal (neg : bool) (s : str) : option float :=
  match split "." s with
  | [whole] =>
      if digits_only whole && negb (Nat.eqb (List.length whole) 0)
      then Some (nearest_quotient neg (int_of_digits whole) 1)
      else None
  | [whole; frac] =>
      if digits_only whole && digits_only frac
         && negb (Nat.eqb (List.length whole + List.length frac) 0)
      then Some (nearest_quotient neg (int_of_digits (whole ++ frac))
                   (10 ^ Z.of_nat (List.length frac)))
      else None
  | _ => None
  end.

Definition parse_float (s : str) : option float :=
  match strip s with
  | "-"%char :: s' => unsigned_literal true s'
  | "+"%char :: s' => unsigned_literal false s'
  | s' => unsigned_literal false s'
  end.

(** Round half to even of [n / d], for [0 <= n] and [0 < d]. *)
Definition round_half_even (n d : Z) : Z :=
  let q := n / d in
  let r := n mod d in
  if 2 * r <? d then q
  else if d <? 2 * r then q + 1
  else if Z.even q then q
  else q + 1.

Definition round_2dp (x : float) : float :=
  match Prim2SF x with
  | SpecFloat.S754_finite neg m e =>
      let hundredths :=
        if 0 <=? e then Zpos m * 100 * 2 ^ e
        else round_half_even (Zpos m * 100) (2 ^ (- e)) in
      nearest_quotient neg hundredths 100
  | _ => x
  end.

Definition repr_marker (v : json) : str := L "<object>".

Definition local_time (ms : Z) : option datetime :=
  let secs := ms / 1000 + 7 * 3600 in
  let day := fromordinal (719163 + secs / 86400) in
  let rem := secs mod 86400 in
  if (1 <=? d_year day) && (d_year day <=? 9999)
  then Some {| dt_year := d_year day; dt_month := d_month day; dt_day := d_day day;
               dt_hour := rem / 3600; dt_minute := (rem mod 3600) / 60;
               dt_tzinfo := TZ_LOCAL |}
  else None.

Definition runtime : Runtime :=
  {| float_of_str := parse_float;
     round2 := round_2dp;
     repr_other := repr_marker;
     local_of_epoch_ms := local_time |}.

End Ref.

(* ================================================================== *)
(** * Vocabulary of the properties *)

(** The threshold [t] takes part in the comparison and [level] reaches it:
    both are present, [t] is not zero, and [level >= t]. *)
Definition reaches (level t : option float) : Prop :=
  exists l x, level = Some l /\ t = Some x
              /\ PrimFloat.eqb x 0%float = false /\ PrimFloat.leb x l = true.

(** The classifier as the specification words it: a threshold is set as soon
    as it is present, whatever its value. *)
Definition classify_when_present (level tier1 tier2 tier3 historical : option float)
  : Z :=
  match level with
  | None => 0
  | Some l =>
      let at_least (t : option float) :=
        match t with
        | Some x => PrimFloat.leb x l
        | None => false
        end in
      if at_least historical then 4
      else if at_least tier3 then 3
      else if at_least tier2 then 2
      else if at_least tier1 then 1
      else 0
  end.

(** The distance the specification describes: [round(level - t, 2)], and no
    value when an operand is missing. *)
Definition distance `{Runtime} (val t : option float) : option float :=
  match val, t with
  | Some v, Some x => Some (round2 (PrimFloat.sub v x))
  | _, _ => None
  end.

(** The first comma-separated component of the text of a field. *)
Definition first_component `{Runtime} (v : json) : str :=
  hd [] (split "," (py_str v)).

(** The timestamp of a row, when it has one, is not before [start]. *)
Definition in_window (start : date) (r : Row) : Prop :=
  forall st, r_timestamp_utc r = Some st -> date_ltb (date_of_stamp st) start = false.

(** A three-way comparison that is a total order up to its [Eq] classes. *)
Record total_cmp {A} (cmp : A -> A -> comparison) : Prop := {
  cmp_opp : forall a b, cmp b a = CompOpp (cmp a b);
  cmp_eq_l : forall a b c, cmp a b = Eq -> cmp a c = cmp b c;
  cmp_lt_trans : forall a b c, cmp a b = Lt -> cmp b c = Lt -> cmp a c = Lt
}.

(** The order of the sort, as a relation. *)
Definition row_le (a b : Row) : Prop := row_leb a b = true.

(** The key of [drop_duplicates]. *)
Definition dedup_key (r : Row) : entity_type * id_cell * option stamp :=
  (r_type r, r_id r, r_timestamp_utc r).

(** [a] and [r] have the same sort key. *)
Definition same_sort_key (a r : Row) : bool :=
  match sort_compare a r with
  | Eq => true
  | _ => false
  end.

(** Rows of one dedup key carry one sort key: an entity has one name and one
    basin within a batch. *)
Definition coherent (l : list Row) : Prop :=
  forall x y, In x l -> In y l -> same_key x y = true -> sort_compare x y = Eq.

(** A row of a river station: its name and basin are those of the station. *)
Definition river_row_of `{Runtime} (STATION_CONFIG : list (str * station_conf))
  (entry : str * (station_meta * option pydict)) (r : Row) : Prop :=
  let '(sid, (meta, response)) := entry in
  exists d,
    response = Some d
    /\ r_type r = River /\ r_id r = IdStr sid
    /\ r_name r = recoded (sc_name (station_conf_of STATION_CONFIG sid)) d
                    (L "name_vn") (meta_name meta)
    /\ r_basin r = recoded (sc_basin_recode (station_conf_of STATION_CONFIG sid)) d
                     (L "river_name") (JStr (meta_river meta)).

(** A row of a lake: its name and basin are those of the configuration. *)
Definition lake_row_of (LAKE_CONFIG : list (str * lake_conf)) (r : Row) : Prop :=
  exists lc conf,
    r_id r = IdStr lc
    /\ lookup LAKE_CONFIG lc = Some conf
    /\ r_type r = Lake
    /\ r_name r = JStr (lc_name conf) /\ r_basin r = JStr (lc_basin_recode conf).

(** [fromordinal] then [toordinal] gives back each of the [n] ordinals from
    [start] on. *)
Fixpoint round_trips_from (start : Z) (n : nat) : bool :=
  match n with
  | O => true
  | S n' =>
      (toordinal (fromordinal start) =? start) && round_trips_from (start + 1) n'
  end.

(** The dates of [n] consecutive ordinals from [start] on. *)
Fixpoint days_from (start : Z) (n : nat) : list date :=
  match n with
  | O => []
  | S n' => fromordinal start :: days_from (start + 1) n'
  end.

(** Each of the [n] ordinals from [start] on denotes a date before the one
    of the next ordinal. *)
Fixpoint ascending_from (start : Z) (n : nat) : bool :=
  match n with
  | O => true
  | S n' =>
      date_ltb (fromordinal start) (fromordinal (start + 1))
      && ascending_from (start + 1) n'
  end.

(** A date of the calendar. *)
Definition valid_date (d : date) : bool :=
  (1 <=? d_month d) && (d_month d <=? 12)
  && (1 <=? d_day d) && (d_day d <=? days_in_month (d_year d) (d_month d)).

(** Every date of the month [m] of the year [y] is the date of its ordinal. *)
Definition month_round_trips (y m : Z) : bool :=
  forallb (fun k =>
             let d := {| d_year := y; d_month := m; d_day := Z.of_nat k |} in
             negb (valid_date d)
             || (let d' := fromordinal (toordinal d) in
                 (d_year d' =? y) && (d_month d' =? m) && (d_day d' =? Z.of_nat k)))
    (seq 1 31).

(** The same for the [n] years from [y] on. *)
Fixpoint years_round_trip (y : Z) (n : nat) : bool :=
  match n with
  | O => true
  | S n' =>
      forallb (fun k => month_round_trips y (Z.of_nat k)) (seq 1 12)
      && years_round_trip (y + 1) n'
  end.

(** The latest timestamp of the prior dataset, when there is one. *)
Definition latest_timestamp (csv : csv_meta) : option stamp :=
  match csv with
  | TimeColumn col => column_max col
  | Unreadable => None
  | NoFile => None
  end.

(** Every character of [a] is in the class. *)
Definition all_in (k : cls) (a : str) : Prop :=
  Forall (fun c => cls_test k c = true) a.

(** The text [a] fits the bounds of the piece. *)
Definition fits (p : piece) (a : str) : Prop :=
  (p_min p <= List.length a)%nat
  /\ match p_max p with
     | Some b => (List.length a <= b)%nat
     | None => True
     end.

(** The match of a piece that took [a], before the match [m] of the rest. *)
Definition took (p : piece) (a : str) (m : rmatch) : rmatch :=
  {| m_text := a ++ m_text m;
     m_groups := if p_capture p then a :: m_groups m else m_groups m |}.

(** One or two digits: what [(\d{1,2})] captures. *)
Definition is_digits12 (s : str) : bool :=
  match s with
  | [a] => is_digit a
  | [a; b] => is_digit a && is_digit b
  | _ => false
  end.

(** The year Case A uses: the year before for a December label read in
    January. *)
Definition year_to_use (current_year month now_month : Z) : Z :=
  if (month =? 12) && (now_month =? 1) then current_year - 1 else current_year.

(** A datetime of the local zone. *)
Definition local_datetime (y m d hh mi : Z) : datetime :=
  {| dt_year := y; dt_month := m; dt_day := d; dt_hour := hh; dt_minute := mi;
     dt_tzinfo := TZ_LOCAL |}.

(** What Case A makes of a match: a timestamp when its fields are a
    constructible date. *)
Definition fields_new (m : rmatch) (current_year now_month : Z) : option datetime :=
  let hour := int_of_digits (group m 1) in
  let day := int_of_digits (group m 2) in
  let month := int_of_digits (group m 3) in
  let y := year_to_use current_year month now_month in
  if valid_fields y month day hour 0 then Some (local_datetime y month day hour 0)
  else None.

(** What Case B makes of a match. *)
Definition fields_old (m : rmatch) (current_year now_month : Z) : option datetime :=
  let hour := int_of_digits (group m 1) in
  let minute := int_of_digits (group m 2) in
  let day := int_of_digits (group m 3) in
  if valid_fields current_year now_month day hour minute
  then Some (local_datetime current_year now_month day hour minute)
  else None.

(* ================================================================== *)
(* ================================================================== *)
(** * Properties *)

(** ** Text and floats *)

Lemma str_eqb_eq (a b : str) : str_eqb a b = true <-> a = b.
Proof.
  revert b. induction a as [|x a IH]; intros [|y b]; simpl; split;
    try discriminate; try reflexivity.
  - intros E. apply andb_true_iff in E as [E1 E2].
    apply Ascii.eqb_eq in E1. apply IH in E2. congruence.
  - intros E. injection E as -> ->. apply andb_true_iff. split.
    + apply Ascii.eqb_refl.
    + now apply IH.
Qed.

Lemma str_eqb_refl (a : str) : str_eqb a a = true.
Proof. now apply str_eqb_eq. Qed.

Lemma existsb_str_eqb (s : str) (l : list str) :
  existsb (str_eqb s) l = true <-> In s l.
Proof.
  rewrite existsb_exists. split.
  - intros [x [Hin E]]. apply str_eqb_eq in E. now subst.
  - intros Hin. exists s. split; [assumption | apply str_eqb_refl].
Qed.

(** A float equal to zero is not above zero. *)
Lemma zero_not_positive (x : float) :
  PrimFloat.eqb x 0%float = true -> PrimFloat.ltb 0%float x = false.
Proof.
  rewrite eqb_spec, ltb_spec.
  change (Prim2SF 0%float) with (SpecFloat.S754_zero false).
  destruct (Prim2SF x) as [s|s| |s m e]; simpl; try reflexivity;
    destruct s; discriminate.
Qed.

(** A float above zero is truthy. *)
Lemma positive_truthy (x : float) :
  PrimFloat.ltb 0%float x = true -> truthy_float x = true.
Proof.
  intros Hpos. unfold truthy_float.
  destruct (PrimFloat.eqb x 0%float) eqn:E; [|reflexivity].
  apply zero_not_positive in E. congruence.
Qed.

(* ================================================================== *)
(** ** AlertClassifier *)

Lemma reached_reaches (l : float) (t : option float) :
  reached l t = true <-> reaches (Some l) t.
Proof.
  unfold reached, reaches, truthy_opt, truthy_float. split.
  - destruct t as [x|]; [|discriminate].
    intros E. apply andb_true_iff in E as [E1 E2].
    exists l, x. repeat split; try assumption.
    now apply negb_true_iff.
  - intros (l' & x & [= <-] & -> & E1 & E2).
    rewrite E1, E2. reflexivity.
Qed.

Lemma reached_false (l : float) (t : option float) :
  reached l t = false <-> ~ reaches (Some l) t.
Proof.
  rewrite <- reached_reaches. destruct (reached l t); split; intros; congruence.
Qed.

Lemma absent_level_reaches_nothing (t : option float) : ~ reaches None t.
Proof. intros (l & x & E & _). discriminate. Qed.

(** C2 (as amended). [classify_exceed] is the cascade over the thresholds from
    the historical one down, where a threshold takes part only when it is
    present and not zero: tier 4 iff the level reaches [hist]; else tier 3 iff
    it reaches [bd3]; else tier 2 iff it reaches [bd2]; else tier 1 iff it
    reaches [bd1]; else tier 0. An absent level gives tier 0 whatever the
    thresholds are. *)
Theorem classify_exceed_cascade (level bd1 bd2 bd3 hist : option float) :
  (classify_exceed level bd1 bd2 bd3 hist = 4 <-> reaches level hist)
  /\ (classify_exceed level bd1 bd2 bd3 hist = 3
      <-> ~ reaches level hist /\ reaches level bd3)
  /\ (classify_exceed level bd1 bd2 bd3 hist = 2
      <-> ~ reaches level hist /\ ~ reaches level bd3 /\ reaches level bd2)
  /\ (classify_exceed level bd1 bd2 bd3 hist = 1
      <-> ~ reaches level hist /\ ~ reaches level bd3 /\ ~ reaches level bd2
          /\ reaches level bd1)
  /\ (classify_exceed level bd1 bd2 bd3 hist = 0
      <-> ~ reaches level hist /\ ~ reaches level bd3 /\ ~ reaches level bd2
          /\ ~ reaches level bd1)
  /\ (level = None -> classify_exceed level bd1 bd2 bd3 hist = 0).
Proof.
  destruct level as [l|]; simpl.
  - destruct (reached l hist) eqn:E4; [|destruct (reached l bd3) eqn:E3;
      [|destruct (reached l bd2) eqn:E2; [|destruct (reached l bd1) eqn:E1]]];
      repeat match goal with
             | E : reached _ _ = true |- _ => apply reached_reaches in E
             | E : reached _ _ = false |- _ => apply reached_false in E
             end;
      repeat split; intros; try discriminate; try tauto.
  - pose proof absent_level_reaches_nothing as N.
    repeat match goal with
           | |- _ /\ _ => split
           | |- _ <-> _ => split
           | |- _ -> _ => intro
           | |- ~ _ => intro
           | H : _ /\ _ |- _ => destruct H
           end;
      try reflexivity; try discriminate;
      try (exfalso; eapply N; eassumption).
Qed.

(** C2, the claim as stated fails: with level 1.0 and a first threshold
    present and equal to 0.0 the specification's reading gives tier 1, the
    code gives tier 0. *)
Lemma classify_exceed_zero_threshold :
  classify_exceed (Some 1%float) (Some 0%float) None None None = 0
  /\ classify_when_present (Some 1%float) (Some 0%float) None None None = 1.
Proof. split; reflexivity. Qed.

(** C3 (as amended). For tiers 4, 3, 2 and 1 [calculate_alert_diff] is
    [round(val - t, 2)] with [t] the historical, third, second and first
    threshold; for any other tier (tier 0) it is [round(val - bd1, 2)] when
    [bd1] is present and not zero, and no value otherwise; a missing operand
    (the level, or the threshold selected by the tier) gives no value, the
    [TypeError] of the subtraction being the only exception of the [try]
    block and never leaving the function. *)
Theorem calculate_alert_diff_cases `{Runtime}
  (level : Z) (val bd1 bd2 bd3 hist : option float) :
  (level = 4 -> calculate_alert_diff level val bd1 bd2 bd3 hist = distance val hist)
  /\ (level = 3 -> calculate_alert_diff level val bd1 bd2 bd3 hist = distance val bd3)
  /\ (level = 2 -> calculate_alert_diff level val bd1 bd2 bd3 hist = distance val bd2)
  /\ (level = 1 -> calculate_alert_diff level val bd1 bd2 bd3 hist = distance val bd1)
  /\ (level <> 4 -> level <> 3 -> level <> 2 -> level <> 1 ->
      truthy_opt bd1 = true ->
      calculate_alert_diff level val bd1 bd2 bd3 hist = distance val bd1)
  /\ (level <> 4 -> level <> 3 -> level <> 2 -> level <> 1 ->
      truthy_opt bd1 = false ->
      calculate_alert_diff level val bd1 bd2 bd3 hist = None)
  /\ (val = None -> calculate_alert_diff level val bd1 bd2 bd3 hist = None)
  /\ (forall v e,
        val = Some v ->
        calculate_alert_diff_try level v bd1 bd2 bd3 hist = Raise e ->
        e = TypeError /\ calculate_alert_diff level val bd1 bd2 bd3 hist = None).
Proof.
  assert (D : forall v t,
             except_all (d <- minus v t ;; Ok (Some (round2 d))) = distance (Some v) t).
  { intros v [x|]; reflexivity. }
  unfold calculate_alert_diff, calculate_alert_diff_try.
  repeat split.
  - intros ->. destruct val as [v|]; [apply D | reflexivity].
  - intros ->. destruct val as [v|]; [apply D | reflexivity].
  - intros ->. destruct val as [v|]; [apply D | reflexivity].
  - intros ->. destruct val as [v|]; [apply D | reflexivity].
  - intros N4 N3 N2 N1 T. destruct val as [v|]; [|reflexivity].
    apply Z.eqb_neq in N4, N3, N2, N1. rewrite N4, N3, N2, N1, T. apply D.
  - intros N4 N3 N2 N1 T. destruct val as [v|]; [|reflexivity].
    apply Z.eqb_neq in N4, N3, N2, N1. rewrite N4, N3, N2, N1, T. reflexivity.
  - intros ->. reflexivity.
  - subst val.
    repeat match goal with
           | E : context [if ?b then _ else _] |- _ => destruct b
           end;
      repeat match goal with
             | E : context [minus _ ?t] |- _ => destruct t; simpl in E
             end;
      congruence.
  - subst val.
    match goal with E : _ = Raise _ |- _ => rewrite E end. reflexivity.
Qed.

(** C3, the claim as stated fails: at tier 0 with level 1.0 and a first
    threshold present and equal to 0.0 the function gives no value, not
    [round(1.0 - 0.0, 2)]. *)
Lemma calculate_alert_diff_zero_threshold :
  @calculate_alert_diff Ref.runtime 0 (Some 1%float) (Some 0%float) None None None
  = None
  /\ @distance Ref.runtime (Some 1%float) (Some 0%float) = Some 1%float.
Proof. split; vm_compute; reflexivity. Qed.

(* ================================================================== *)
(** ** Threshold and value fields *)

Lemma get_first_num_some `{Runtime} (d : pydict) (key : str) (x : float) :
  get_first_num d key = Some x
  <-> truthy (get d key) = true
      /\ float_of_str (first_component (get d key)) = Some x
      /\ PrimFloat.ltb 0%float x = true.
Proof.
  unfold get_first_num, first_component.
  destruct (truthy (get d key)); simpl.
  - destruct (float_of_str _) as [y|].
    + destruct (PrimFloat.ltb 0%float y) eqn:G; split.
      * intros [= <-]. auto.
      * intros (_ & [= <-] & _). reflexivity.
      * discriminate.
      * intros (_ & [= <-] & G'). congruence.
    + split; [discriminate | intros (_ & E & _); discriminate].
  - split; [discriminate | intros (E & _); discriminate].
Qed.

Lemma get_first_num_not_positive `{Runtime} (d : pydict) (key : str) (x : float) :
  float_of_str (first_component (get d key)) = Some x ->
  PrimFloat.ltb 0%float x = false -> get_first_num d key = None.
Proof.
  intros P N. destruct (get_first_num d key) as [y|] eqn:E; [|reflexivity].
  apply get_first_num_some in E as (_ & P' & G). congruence.
Qed.

(** C10. [get_first_num] gives the float of the first component of the field
    exactly when the field is truthy, that component parses, and the value is
    above zero; an absent field, a falsy field, a component that does not
    parse and a value that is not above zero (zero in particular) all give no
    value, the same result as for an absent field; so a threshold it returns
    is never zero, and one reported as 0 reaches the classifier and the
    distance as an absent one. *)
Theorem get_first_num_positive_only `{Runtime} (d : pydict) (key : str) :
  (forall x,
      get_first_num d key = Some x
      <-> truthy (get d key) = true
          /\ float_of_str (first_component (get d key)) = Some x
          /\ PrimFloat.ltb 0%float x = true)
  /\ (lookup d key = None -> get_first_num d key = None)
  /\ (truthy (get d key) = false -> get_first_num d key = None)
  /\ (float_of_str (first_component (get d key)) = None ->
      get_first_num d key = None)
  /\ (forall x,
        float_of_str (first_component (get d key)) = Some x ->
        PrimFloat.ltb 0%float x = false -> get_first_num d key = None)
  /\ (forall x,
        float_of_str (first_component (get d key)) = Some x ->
        PrimFloat.eqb x 0%float = true ->
        get_first_num d key = get_first_num [] key)
  /\ (forall x, get_first_num d key = Some x -> truthy_opt (Some x) = true)
  /\ (forall level val bd2 bd3 hist x,
        float_of_str (first_component (get d key)) = Some x ->
        PrimFloat.eqb x 0%float = true ->
        classify_exceed val (get_first_num d key) bd2 bd3 hist
        = classify_exceed val None bd2 bd3 hist
        /\ calculate_alert_diff level val (get_first_num d key) bd2 bd3 hist
           = calculate_alert_diff level val None bd2 bd3 hist).
Proof.
  split; [intros x; apply get_first_num_some|].
  split.
  { intros E. unfold get_first_num, get, get_default. rewrite E. reflexivity. }
  split.
  { intros T. unfold get_first_num. rewrite T. reflexivity. }
  split.
  { intros P. destruct (get_first_num d key) as [y|] eqn:E; [|reflexivity].
    apply get_first_num_some in E as (_ & P' & _). congruence. }
  split; [intros x; apply get_first_num_not_positive|].
  split.
  { intros x P E.
    rewrite (get_first_num_not_positive d key x P (zero_not_positive x E)).
    reflexivity. }
  split.
  { intros x E. apply get_first_num_some in E as (_ & _ & G).
    now apply positive_truthy. }
  intros level val bd2 bd3 hist x P E.
  rewrite (get_first_num_not_positive d key x P (zero_not_positive x E)).
  split; reflexivity.
Qed.



(* ================================================================== *)
(** ** Window filtering *)

Lemma river_loop_appends `{Runtime} (start : date) (y nm : Z) (sid : str)
  (meta : station_meta) (config : station_conf) (d : pydict)
  (pairs : list (str * option float)) (acc : list Row) :
  exists new,
    fst (river_loop start y nm sid meta config d pairs acc) = acc ++ new
    /\ Forall (fun r => r_timestamp_utc r <> None /\ in_window start r) new.
Proof.
  revert acc. induction pairs as [|[lbl val] rest IH]; intros acc; cbn [river_loop fst].
  - exists []. split; [now rewrite app_nil_r | constructor].
  - destruct (parse_river_dt lbl y nm) as [[dt|]|e].
    + destruct (date_ltb (date_of dt) start) eqn:W.
      * apply IH.
      * destruct (IH (acc ++ [river_row sid meta config d dt val])) as (new & E & F).
        exists (river_row sid meta config d dt val :: new). split.
        -- rewrite E, <- app_assoc. reflexivity.
        -- constructor; [|exact F]. split; [discriminate|].
           intros st [= <-]. exact W.
    + apply IH.
    + exists []. split; [now rewrite app_nil_r | constructor].
Qed.

Lemma lake_loop_appends `{Runtime} (start : date) (cfg : list (str * lake_conf))
  (lake_data : list pydict) (acc : list Row) :
  exists new,
    lake_loop start cfg lake_data acc = acc ++ new
    /\ Forall (in_window start) new.
Proof.
  revert acc. induction lake_data as [|rec rest IH]; intros acc; cbn [lake_loop].
  - exists []. split; [now rewrite app_nil_r | constructor].
  - destruct (lake_entry cfg (get rec (L "LakeCode"))) as [[lc conf]|]; [|apply IH].
    destruct (ms_to_dt_local (get rec (L "ThoiGianCapNhat"))) as [dt|] eqn:T.
    + destruct (date_ltb (date_of dt) start) eqn:W; [apply IH|].
      destruct (IH (acc ++ [lake_row lc conf rec (Some dt)])) as (new & E & F).
      exists (lake_row lc conf rec (Some dt) :: new). split.
      * rewrite E, <- app_assoc. reflexivity.
      * constructor; [|exact F]. intros st [= <-]. exact W.
    + destruct (IH (acc ++ [lake_row lc conf rec None])) as (new & E & F).
      exists (lake_row lc conf rec None :: new). split.
      * rewrite E, <- app_assoc. reflexivity.
      * constructor; [|exact F]. intros st. discriminate.
Qed.

(** C8. Every row the river loop appends has a timestamp, and every row
    either loop appends has no timestamp before the window start: a river
    pair whose parsed date precedes [start] is dropped, a lake record whose
    derived date precedes [start] is dropped, and a lake record of the
    configured set with no derivable timestamp is appended, with an empty
    timestamp, whatever [start] is. *)
Theorem window_filter `{Runtime} (start : date) :
  (forall y nm sid meta config d pairs acc,
      exists new,
        fst (river_loop start y nm sid meta config d pairs acc) = acc ++ new
        /\ Forall (fun r => r_timestamp_utc r <> None /\ in_window start r) new)
  /\ (forall y nm sid meta config d lbl val rest acc dt,
        parse_river_dt lbl y nm = Ok (Some dt) ->
        date_ltb (date_of dt) start = true ->
        river_loop start y nm sid meta config d ((lbl, val) :: rest) acc
        = river_loop start y nm sid meta config d rest acc)
  /\ (forall cfg lake_data acc,
        exists new,
          lake_loop start cfg lake_data acc = acc ++ new
          /\ Forall (in_window start) new)
  /\ (forall cfg rec rest acc lc conf dt,
        lake_entry cfg (get rec (L "LakeCode")) = Some (lc, conf) ->
        ms_to_dt_local (get rec (L "ThoiGianCapNhat")) = Some dt ->
        date_ltb (date_of dt) start = true ->
        lake_loop start cfg (rec :: rest) acc = lake_loop start cfg rest acc)
  /\ (forall cfg rec rest acc lc conf,
        lake_entry cfg (get rec (L "LakeCode")) = Some (lc, conf) ->
        ms_to_dt_local (get rec (L "ThoiGianCapNhat")) = None ->
        lake_loop start cfg (rec :: rest) acc
        = lake_loop start cfg rest (acc ++ [lake_row lc conf rec None])
        /\ r_timestamp_utc (lake_row lc conf rec None) = None
        /\ In (lake_row lc conf rec None) (lake_loop start cfg (rec :: rest) acc)).
Proof.
  split; [intros; apply river_loop_appends|].
  split.
  { intros y nm sid meta config d lbl val rest acc dt P W. cbn [river_loop].
    rewrite P, W. reflexivity. }
  split; [intros; apply lake_loop_appends|].
  split.
  { intros cfg rec rest acc lc conf dt E T W. cbn [lake_loop].
    rewrite E, T, W. reflexivity. }
  intros cfg rec rest acc lc conf E T.
  assert (S : lake_loop start cfg (rec :: rest) acc
              = lake_loop start cfg rest (acc ++ [lake_row lc conf rec None])).
  { cbn [lake_loop]. rewrite E, T. reflexivity. }
  split; [exact S|]. split; [reflexivity|].
  rewrite S.
  destruct (lake_loop_appends start cfg rest (acc ++ [lake_row lc conf rec None]))
    as (new & -> & _).
  apply in_or_app. left. apply in_or_app. right. now left.
Qed.

(* ================================================================== *)
(** ** Orders given by a three-way comparison *)

Section TotalCmp.
Context {A : Type} (cmp : A -> A -> comparison) (O : total_cmp cmp).

Lemma cmp_refl (a : A) : cmp a a = Eq.
Proof.
  pose proof (cmp_opp cmp O a a) as E. destruct (cmp a a); simpl in E; congruence.
Qed.

Lemma cmp_eq_sym (a b : A) : cmp a b = Eq -> cmp b a = Eq.
Proof. intros E. rewrite (cmp_opp cmp O a b), E. reflexivity. Qed.

Lemma cmp_eq_r (a b c : A) : cmp b c = Eq -> cmp a b = cmp a c.
Proof.
  intros E. rewrite (cmp_opp cmp O b a), (cmp_opp cmp O c a).
  f_equal. now apply (cmp_eq_l cmp O).
Qed.

Lemma cmp_gt_lt (a b : A) : cmp a b = Gt -> cmp b a = Lt.
Proof. intros E. rewrite (cmp_opp cmp O a b), E. reflexivity. Qed.

(** [a <= b]: the comparison is not [Gt]. *)
Lemma cmp_le_trans (a b c : A) : cmp a b <> Gt -> cmp b c <> Gt -> cmp a c <> Gt.
Proof.
  intros H1 H2.
  destruct (cmp a b) eqn:E1; [| |congruence].
  - rewrite (cmp_eq_l cmp O a b c E1). exact H2.
  - destruct (cmp b c) eqn:E2; [| |congruence].
    + rewrite <- (cmp_eq_r a b c E2), E1. discriminate.
    + rewrite (cmp_lt_trans cmp O a b c E1 E2). discriminate.
Qed.

End TotalCmp.

Lemma total_cmp_lex {A} (c1 c2 : A -> A -> comparison) :
  total_cmp c1 -> total_cmp c2 -> total_cmp (fun a b => lex (c1 a b) (c2 a b)).
Proof.
  intros O1 O2. split.
  - intros a b. rewrite (cmp_opp c1 O1 a b), (cmp_opp c2 O2 a b).
    destruct (c1 a b); reflexivity.
  - intros a b c E.
    destruct (c1 a b) eqn:E1; simpl in E; try discriminate.
    rewrite (cmp_eq_l c1 O1 a b c E1), (cmp_eq_l c2 O2 a b c E). reflexivity.
  - intros a b c E F.
    destruct (c1 a b) eqn:E1; simpl in E; try discriminate.
    + rewrite (cmp_eq_l c1 O1 a b c E1).
      destruct (c1 b c) eqn:F1; simpl in *; try discriminate; try reflexivity.
      now apply (cmp_lt_trans c2 O2 a b c).
    + destruct (c1 b c) eqn:F1; simpl in F; try discriminate.
      * rewrite <- (cmp_eq_r c1 O1 a b c F1), E1. reflexivity.
      * rewrite (cmp_lt_trans c1 O1 a b c E1 F1). reflexivity.
Qed.

Lemma total_cmp_on {A B} (f : A -> B) (c : B -> B -> comparison) :
  total_cmp c -> total_cmp (fun a b => c (f a) (f b)).
Proof.
  intros O. split; intros.
  - apply (cmp_opp c O).
  - now apply (cmp_eq_l c O).
  - now apply (cmp_lt_trans c O) with (f b).
Qed.

Lemma total_cmp_Z : total_cmp Z.compare.
Proof.
  split.
  - intros a b. apply Z.compare_antisym.
  - intros a b c E. apply Z.compare_eq in E. now subst.
  - intros a b c E F. rewrite Z.compare_lt_iff in *. lia.
Qed.

Lemma code_inj (x y : ascii) : code x = code y -> x = y.
Proof.
  unfold code. intros E. apply Nat2Z.inj in E.
  rewrite <- (ascii_nat_embedding x), <- (ascii_nat_embedding y). now f_equal.
Qed.

Lemma str_compare_eq (a b : str) : str_compare a b = Eq -> a = b.
Proof.
  revert b. induction a as [|x a IH]; intros [|y b]; simpl; try discriminate.
  - reflexivity.
  - destruct (code x ?= code y) eqn:E; simpl; try discriminate.
    apply Z.compare_eq in E. apply code_inj in E. intros F. f_equal; auto.
Qed.

Lemma total_cmp_str : total_cmp str_compare.
Proof.
  split.
  - induction a as [|x a IH]; intros [|y b]; simpl; try reflexivity.
    rewrite (Z.compare_antisym (code x) (code y)), IH.
    destruct (code x ?= code y); reflexivity.
  - intros a b c E. apply str_compare_eq in E. now subst.
  - induction a as [|x a IH]; intros [|y b] [|z c]; simpl; try discriminate;
      try reflexivity.
    intros E F.
    destruct (code x ?= code y) eqn:E1; simpl in E; try discriminate.
    + apply Z.compare_eq in E1. rewrite E1.
      destruct (code y ?= code z); simpl in *; try discriminate; try reflexivity.
      now apply (IH b c).
    + destruct (code y ?= code z) eqn:F1; simpl in F; try discriminate.
      * apply Z.compare_eq in F1. rewrite <- F1, E1. reflexivity.
      * rewrite Z.compare_lt_iff in E1, F1.
        assert (G : (code x ?= code z) = Lt) by (apply Z.compare_lt_iff; lia).
        rewrite G. reflexivity.
Qed.

Lemma total_cmp_type : total_cmp type_compare.
Proof.
  split.
  - intros [] []; reflexivity.
  - intros [] [] []; simpl; congruence.
  - intros [] [] []; simpl; congruence.
Qed.

Lemma total_cmp_stamp : total_cmp stamp_compare.
Proof.
  unfold stamp_compare.
  repeat apply total_cmp_lex;
    match goal with
    | |- total_cmp (fun a b => ?f a ?= ?f b) => exact (total_cmp_on f Z.compare total_cmp_Z)
    end.
Qed.

Lemma stamp_compare_eq (a b : stamp) : stamp_compare a b = Eq -> a = b.
Proof.
  destruct a, b. unfold stamp_compare. simpl.
  repeat match goal with
         | |- context [?x ?= ?y] =>
             destruct (Z.compare_spec x y); simpl; try discriminate; subst
         end.
  reflexivity.
Qed.

Lemma total_cmp_timestamp : total_cmp timestamp_compare.
Proof.
  pose proof total_cmp_stamp as O. split.
  - intros [a|] [b|]; simpl; try reflexivity. apply (cmp_opp _ O).
  - intros [a|] [b|] [c|]; simpl; try discriminate; try reflexivity.
    apply (cmp_eq_l _ O).
  - intros [a|] [b|] [c|]; simpl; try discriminate; try reflexivity.
    apply (cmp_lt_trans _ O).
Qed.

Lemma timestamp_compare_eq (a b : option stamp) :
  timestamp_compare a b = Eq -> a = b.
Proof.
  destruct a, b; simpl; try discriminate; try reflexivity.
  intros E. f_equal. now apply stamp_compare_eq.
Qed.

Lemma total_cmp_text : total_cmp text_compare.
Proof.
  pose proof total_cmp_str as O. split.
  - intros [a|] [b|]; simpl; try reflexivity. apply (cmp_opp _ O).
  - intros [a|] [b|] [c|]; simpl; try discriminate; try reflexivity.
    apply (cmp_eq_l _ O).
  - intros [a|] [b|] [c|]; simpl; try discriminate; try reflexivity.
    apply (cmp_lt_trans _ O).
Qed.

Lemma total_cmp_sort : total_cmp sort_compare.
Proof.
  unfold sort_compare.
  apply total_cmp_lex; [exact (total_cmp_on r_type _ total_cmp_type)|].
  apply total_cmp_lex;
    [exact (total_cmp_on (fun r => text_key (r_basin r)) _ total_cmp_text)|].
  apply total_cmp_lex;
    [exact (total_cmp_on (fun r => text_key (r_name r)) _ total_cmp_text)|].
  exact (total_cmp_on r_timestamp_utc _ total_cmp_timestamp).
Qed.

(* ================================================================== *)
(** ** IncrementalMerger *)

Lemma row_le_iff (a b : Row) : row_le a b <-> sort_compare a b <> Gt.
Proof.
  unfold row_le, row_leb. destruct (sort_compare a b); split; congruence.
Qed.

Lemma row_le_refl (a : Row) : row_le a a.
Proof. apply row_le_iff. rewrite (cmp_refl _ total_cmp_sort). discriminate. Qed.

Lemma row_le_trans (a b c : Row) : row_le a b -> row_le b c -> row_le a c.
Proof. rewrite !row_le_iff. apply (cmp_le_trans _ total_cmp_sort). Qed.

Lemma row_leb_false (a b : Row) : row_leb a b = false -> row_le b a.
Proof.
  unfold row_leb. intros E. apply row_le_iff.
  destruct (sort_compare a b) eqn:C; try discriminate.
  rewrite (cmp_gt_lt _ total_cmp_sort a b C). discriminate.
Qed.

Lemma type_compare_eq (a b : entity_type) : type_compare a b = Eq -> a = b.
Proof. destruct a, b; simpl; congruence. Qed.

Lemma id_eqb_eq (a b : id_cell) : id_eqb a b = true -> a = b.
Proof.
  destruct a, b; simpl; try discriminate; intros E.
  - apply str_eqb_eq in E. now subst.
  - apply Z.eqb_eq in E. now subst.
Qed.

Lemma id_eqb_refl (a : id_cell) : id_eqb a a = true.
Proof. destruct a; simpl; [apply str_eqb_refl | apply Z.eqb_refl]. Qed.

Lemma same_key_iff (a b : Row) : same_key a b = true <-> dedup_key a = dedup_key b.
Proof.
  unfold same_key, dedup_key. split.
  - destruct (type_compare (r_type a) (r_type b)) eqn:T; try discriminate.
    destruct (timestamp_compare _ _) eqn:S; try discriminate.
    intros E. apply id_eqb_eq in E.
    apply type_compare_eq in T. apply timestamp_compare_eq in S. congruence.
  - intros [= -> -> ->].
    rewrite (cmp_refl _ total_cmp_type), (cmp_refl _ total_cmp_timestamp).
    apply id_eqb_refl.
Qed.

(** *** The sort *)

Lemma insert_row_perm (r : Row) (l : list Row) : Permutation (r :: l) (insert_row r l).
Proof.
  induction l as [|x l IH]; simpl.
  - reflexivity.
  - destruct (row_leb r x).
    + reflexivity.
    + rewrite perm_swap. now constructor.
Qed.

Lemma stable_sort_perm (l : list Row) : Permutation l (stable_sort l).
Proof.
  induction l as [|r l IH]; simpl.
  - constructor.
  - rewrite <- insert_row_perm. now constructor.
Qed.

Lemma insert_row_sorted (r : Row) (l : list Row) :
  StronglySorted row_le l -> StronglySorted row_le (insert_row r l).
Proof.
  induction 1 as [|x l S IH F]; simpl.
  - repeat constructor.
  - destruct (row_leb r x) eqn:E.
    + constructor; [now constructor|].
      constructor; [exact E|].
      eapply Forall_impl; [|exact F]. intros y. now apply row_le_trans.
    + constructor; [exact IH|].
      apply (Permutation_Forall (insert_row_perm r l)).
      constructor; [now apply row_leb_false | exact F].
Qed.

Lemma stable_sort_sorted (l : list Row) : StronglySorted row_le (stable_sort l).
Proof.
  induction l as [|r l IH]; simpl.
  - constructor.
  - now apply insert_row_sorted.
Qed.

(** The sort is stable: the rows of one sort key keep their order. *)
Lemma insert_row_stable (a r : Row) (l : list Row) :
  filter (same_sort_key a) (insert_row r l)
  = if same_sort_key a r then r :: filter (same_sort_key a) l
    else filter (same_sort_key a) l.
Proof.
  induction l as [|x l IH]; simpl.
  - destruct (same_sort_key a r); reflexivity.
  - destruct (row_leb r x) eqn:E; simpl.
    + destruct (same_sort_key a r); reflexivity.
    + rewrite IH.
      destruct (same_sort_key a r) eqn:Er, (same_sort_key a x) eqn:Ex;
        try reflexivity.
      exfalso. unfold same_sort_key, row_leb in *.
      destruct (sort_compare a r) eqn:Cr; try discriminate.
      destruct (sort_compare a x) eqn:Cx; try discriminate.
      apply (cmp_eq_sym _ total_cmp_sort) in Cr.
      rewrite (cmp_eq_l _ total_cmp_sort r a x Cr), Cx in E. discriminate.
Qed.

Lemma stable_sort_stable (a : Row) (l : list Row) :
  filter (same_sort_key a) (stable_sort l) = filter (same_sort_key a) l.
Proof.
  induction l as [|r l IH]; simpl.
  - reflexivity.
  - rewrite insert_row_stable, IH. reflexivity.
Qed.

Lemma same_sort_key_refl (a : Row) : same_sort_key a a = true.
Proof. unfold same_sort_key. now rewrite (cmp_refl _ total_cmp_sort). Qed.

(** Two sorted lists with the same rows, in the same order, under every sort
    key are one list. *)
Lemma sorted_unique (s1 s2 : list Row) :
  StronglySorted row_le s1 -> StronglySorted row_le s2 ->
  (forall a, filter (same_sort_key a) s1 = filter (same_sort_key a) s2) ->
  s1 = s2.
Proof.
  intros S1. revert s2.
  induction S1 as [|x s1 S1 IH F1]; intros s2 S2 E.
  - destruct s2 as [|y s2]; [reflexivity|].
    specialize (E y). simpl in E. rewrite same_sort_key_refl in E. discriminate.
  - destruct S2 as [|y s2 S2 F2].
    { specialize (E x). simpl in E. rewrite same_sort_key_refl in E. discriminate. }
    assert (Hxy : row_le x y).
    { assert (I : In y (filter (same_sort_key y) (x :: s1))).
      { rewrite E. simpl. rewrite same_sort_key_refl. now left. }
      apply filter_In in I as [[<-|I] _]; [apply row_le_refl|].
      rewrite Forall_forall in F1. now apply F1. }
    assert (Hyx : row_le y x).
    { assert (I : In x (filter (same_sort_key x) (y :: s2))).
      { rewrite <- E. simpl. rewrite same_sort_key_refl. now left. }
      apply filter_In in I as [[<-|I] _]; [apply row_le_refl|].
      rewrite Forall_forall in F2. now apply F2. }
    assert (C : sort_compare x y = Eq).
    { apply row_le_iff in Hxy, Hyx.
      destruct (sort_compare x y) eqn:C; [reflexivity| |congruence].
      rewrite (cmp_opp _ total_cmp_sort x y), C in Hyx. simpl in Hyx. congruence. }
    assert (K : forall a, same_sort_key a x = same_sort_key a y).
    { intros a. unfold same_sort_key.
      now rewrite (cmp_eq_r _ total_cmp_sort a x y C). }
    assert (X : x = y).
    { specialize (E x). simpl in E. rewrite <- K, same_sort_key_refl in E.
      congruence. }
    subst y. f_equal. apply IH; [exact S2|].
    intros a. specialize (E a). simpl in E.
    destruct (same_sort_key a x); congruence.
Qed.

Lemma stable_sort_determined (l1 l2 : list Row) :
  (forall a, filter (same_sort_key a) l1 = filter (same_sort_key a) l2) ->
  stable_sort l1 = stable_sort l2.
Proof.
  intros E. apply sorted_unique; try apply stable_sort_sorted.
  intros a. rewrite !stable_sort_stable. apply E.
Qed.

(** *** The deduplication *)

Lemma existsb_same_key_perm (r : Row) (l l' : list Row) :
  Permutation l l' -> existsb (same_key r) l = existsb (same_key r) l'.
Proof.
  intros P. apply eq_true_iff_eq. rewrite !existsb_exists.
  split; intros (x & I & E); exists x; split; try assumption.
  - now apply (Permutation_in _ P).
  - now apply (Permutation_in _ (Permutation_sym P)).
Qed.

Lemma drop_duplicates_last_In (r : Row) (l : list Row) :
  In r (drop_duplicates_last l) -> In r l.
Proof.
  induction l as [|x l IH]; simpl; [tauto|].
  destruct (existsb (same_key x) l); simpl; tauto.
Qed.

(** Every key of the list is kept. *)
Lemma drop_duplicates_last_keeps (r : Row) (l : list Row) :
  In r l -> exists r', In r' (drop_duplicates_last l) /\ dedup_key r' = dedup_key r.
Proof.
  revert r. induction l as [|x l IH]; intros r; simpl; [tauto|].
  intros [->|I].
  - destruct (existsb (same_key r) l) eqn:E.
    + apply existsb_exists in E as (y & Iy & Ey).
      destruct (IH y Iy) as (r' & I' & K). exists r'. split; [exact I'|].
      apply same_key_iff in Ey. congruence.
    + exists r. split; [now left | reflexivity].
  - destruct (IH r I) as (r' & I' & K). exists r'. split; [|exact K].
    destruct (existsb (same_key x) l); [exact I' | now right].
Qed.

Lemma drop_duplicates_last_NoDup (l : list Row) :
  NoDup (map dedup_key (drop_duplicates_last l)).
Proof.
  induction l as [|x l IH]; simpl; [constructor|].
  destruct (existsb (same_key x) l) eqn:E; [exact IH|].
  simpl. constructor; [|exact IH].
  intros I. apply in_map_iff in I as (y & K & Iy).
  apply drop_duplicates_last_In in Iy.
  assert (T : existsb (same_key x) l = true).
  { apply existsb_exists. exists y. split; [exact Iy|].
    apply same_key_iff. congruence. }
  congruence.
Qed.

(** Over a concatenation: the rows of the first part whose key does not come
    back in the second, then the second part deduplicated. *)
Lemma drop_duplicates_last_app (a b : list Row) :
  drop_duplicates_last (a ++ b)
  = filter (fun o => negb (existsb (same_key o) b)) (drop_duplicates_last a)
    ++ drop_duplicates_last b.
Proof.
  induction a as [|x a IH]; simpl; [reflexivity|].
  rewrite existsb_app.
  destruct (existsb (same_key x) a) eqn:Ea; simpl; [exact IH|].
  destruct (existsb (same_key x) b) eqn:Eb; simpl; [exact IH|].
  now rewrite IH.
Qed.

(** In a coherent list, deduplicating commutes with selecting a sort key. *)
Lemma drop_duplicates_last_filter (a : Row) (l : list Row) :
  coherent l ->
  filter (same_sort_key a) (drop_duplicates_last l)
  = drop_duplicates_last (filter (same_sort_key a) l).
Proof.
  induction l as [|r l IH]; intros C; simpl; [reflexivity|].
  assert (C' : coherent l).
  { intros x y Ix Iy. apply C; now right. }
  destruct (same_sort_key a r) eqn:Er; simpl.
  - assert (X : existsb (same_key r) (filter (same_sort_key a) l)
                = existsb (same_key r) l).
    { apply eq_true_iff_eq. rewrite !existsb_exists.
      split; intros (x & I & E).
      - apply filter_In in I as [I _]. now exists x.
      - exists x. split; [|exact E]. apply filter_In. split; [exact I|].
        assert (S : sort_compare r x = Eq).
        { apply C; [now left | now right | exact E]. }
        unfold same_sort_key in *.
        now rewrite <- (cmp_eq_r _ total_cmp_sort a r x S). }
    rewrite X. destruct (existsb (same_key r) l); simpl.
    + now apply IH.
    + rewrite Er. f_equal. now apply IH.
  - destruct (existsb (same_key r) l); simpl.
    + now apply IH.
    + rewrite Er. now apply IH.
Qed.

Lemma coherent_perm (l l' : list Row) : Permutation l l' -> coherent l -> coherent l'.
Proof.
  intros P C x y Ix Iy. apply C; eapply Permutation_in; try eassumption;
    now apply Permutation_sym.
Qed.

(** Sorting the batch before the concatenation does not change the merged
    frame when the batch is coherent. *)
Lemma merge_presorted (old incoming : list Row) :
  coherent incoming ->
  stable_sort (drop_duplicates_last (old ++ stable_sort incoming))
  = stable_sort (drop_duplicates_last (old ++ incoming)).
Proof.
  intros C. apply stable_sort_determined. intros a.
  rewrite !drop_duplicates_last_app, !filter_app. f_equal.
  - f_equal. apply filter_ext. intros o. f_equal.
    apply existsb_same_key_perm. apply Permutation_sym, stable_sort_perm.
  - rewrite !drop_duplicates_last_filter.
    + now rewrite stable_sort_stable.
    + exact C.
    + apply (coherent_perm _ _ (stable_sort_perm incoming) C).
Qed.

(** *** The batch of the two loops is coherent *)

Lemma sort_compare_fields (x y : Row) :
  r_type x = r_type y -> r_basin x = r_basin y -> r_name x = r_name y ->
  r_timestamp_utc x = r_timestamp_utc y -> sort_compare x y = Eq.
Proof.
  intros T B N S. unfold sort_compare. rewrite T, B, N, S.
  rewrite (cmp_refl _ total_cmp_type), !(cmp_refl _ total_cmp_text),
    (cmp_refl _ total_cmp_timestamp). reflexivity.
Qed.

Lemma river_loop_rows `{Runtime} (start : date) (y nm : Z) (sid : str)
  (meta : station_meta) (config : station_conf) (d : pydict)
  (pairs : list (str * option float)) (acc : list Row) :
  exists new,
    fst (river_loop start y nm sid meta config d pairs acc) = acc ++ new
    /\ Forall (fun r => exists dt val, r = river_row sid meta config d dt val) new.
Proof.
  revert acc. induction pairs as [|[lbl val] rest IH]; intros acc;
    cbn [river_loop fst].
  - exists []. split; [now rewrite app_nil_r | constructor].
  - destruct (parse_river_dt lbl y nm) as [[dt|]|e].
    + destruct (date_ltb (date_of dt) start); [apply IH|].
      destruct (IH (acc ++ [river_row sid meta config d dt val])) as (new & E & F).
      exists (river_row sid meta config d dt val :: new). split.
      * rewrite E, <- app_assoc. reflexivity.
      * constructor; [now exists dt, val | exact F].
    + apply IH.
    + exists []. split; [now rewrite app_nil_r | constructor].
Qed.

Lemma river_station_rows `{Runtime} (start : date) (y nm : Z) (sid : str)
  (meta : station_meta) (config : station_conf) (d : pydict) (acc : list Row) :
  exists new,
    fst (river_station start y nm sid meta config d acc) = acc ++ new
    /\ Forall (fun r => exists dt val, r = river_row sid meta config d dt val) new.
Proof.
  unfold river_station.
  destruct (labels <- labels_of d;; values <- values_of d;; Ok (labels, values))
    as [[labels values]|e].
  - apply river_loop_rows.
  - exists []. split; [now rewrite app_nil_r | constructor].
Qed.

Lemma rivers_loop_rows `{Runtime} (start : date) (y nm : Z)
  (scfg : list (str * station_conf))
  (stations : list (str * (station_meta * option pydict))) (acc : list Row) :
  exists new,
    rivers_loop start y nm scfg stations acc = acc ++ new
    /\ Forall (fun r => exists entry, In entry stations /\ river_row_of scfg entry r)
         new.
Proof.
  revert acc. induction stations as [|[sid [meta [d|]]] rest IH]; intros acc;
    cbn [rivers_loop].
  - exists []. split; [now rewrite app_nil_r | constructor].
  - destruct (river_station_rows start y nm sid meta (station_conf_of scfg sid) d acc)
      as (new1 & -> & F1).
    destruct (IH (acc ++ new1)) as (new2 & -> & F2).
    exists (new1 ++ new2). split; [now rewrite app_assoc|].
    apply Forall_app. split.
    + eapply Forall_impl; [|exact F1]. intros r (dt & val & ->).
      exists (sid, (meta, Some d)). split; [now left|].
      exists d. repeat split.
    + eapply Forall_impl; [|exact F2]. intros r (entry & I & R).
      exists entry. split; [now right | exact R].
  - destruct (IH acc) as (new & -> & F). exists new. split; [reflexivity|].
    eapply Forall_impl; [|exact F]. intros r (entry & I & R).
    exists entry. split; [now right | exact R].
Qed.

Lemma lake_loop_rows `{Runtime} (start : date) (cfg : list (str * lake_conf))
  (lake_data : list pydict) (acc : list Row) :
  exists new,
    lake_loop start cfg lake_data acc = acc ++ new /\ Forall (lake_row_of cfg) new.
Proof.
  revert acc. induction lake_data as [|rec rest IH]; intros acc; cbn [lake_loop].
  - exists []. split; [now rewrite app_nil_r | constructor].
  - destruct (lake_entry cfg (get rec (L "LakeCode"))) as [[lc conf]|] eqn:E;
      [|apply IH].
    assert (K : forall dt, lake_row_of cfg (lake_row lc conf rec dt)).
    { intros dt. exists lc, conf. repeat split.
      unfold lake_entry in E. destruct (get rec (L "LakeCode")); try discriminate.
      destruct (lookup cfg s) eqn:Q; [|discriminate]. now injection E as <- <-. }
    destruct (ms_to_dt_local (get rec (L "ThoiGianCapNhat"))) as [dt|].
    + destruct (date_ltb (date_of dt) start); [apply IH|].
      destruct (IH (acc ++ [lake_row lc conf rec (Some dt)])) as (new & -> & F).
      exists (lake_row lc conf rec (Some dt) :: new). split.
      * rewrite <- app_assoc. reflexivity.
      * constructor; [apply K | exact F].
    + destruct (IH (acc ++ [lake_row lc conf rec None])) as (new & -> & F).
      exists (lake_row lc conf rec None :: new). split.
      * rewrite <- app_assoc. reflexivity.
      * constructor; [apply K | exact F].
Qed.

Lemma NoDup_fst_inj {A B} (l : list (A * B)) (a : A) (b b' : B) :
  NoDup (map fst l) -> In (a, b) l -> In (a, b') l -> b = b'.
Proof.
  induction l as [|[x y] l IH]; simpl; [tauto|].
  intros N. inversion N as [|? ? Nx Nl]. subst.
  intros [[= -> ->]|I] [[= <-]|I']; try reflexivity.
  - exfalso. apply Nx. apply in_map_iff. now exists (a, b').
  - exfalso. apply Nx. apply in_map_iff. now exists (x, b).
  - now apply IH.
Qed.

(** The stations are the items of a dictionary, so no identifier comes
    twice; the batch the two loops build is then coherent. *)
Lemma collect_coherent `{Runtime} (start : date) (y nm : Z)
  (scfg : list (str * station_conf)) (lcfg : list (str * lake_conf))
  (stations : list (str * (station_meta * option pydict)))
  (lake_data : list pydict) :
  NoDup (map fst stations) ->
  coherent (collect start y nm scfg lcfg stations lake_data).
Proof.
  intros N. unfold collect.
  destruct (rivers_loop_rows start y nm scfg stations []) as (rs & -> & FR).
  destruct (lake_loop_rows start lcfg lake_data ([] ++ rs)) as (ls & -> & FL).
  rewrite Forall_forall in FR, FL.
  intros a b Ia Ib K. apply same_key_iff in K. injection K as KT KI KS.
  assert (X : r_basin a = r_basin b /\ r_name a = r_name b).
  { simpl in Ia, Ib. apply in_app_or in Ia as [Ia|Ia], Ib as [Ib|Ib].
    - destruct (FR a Ia) as ([s1 [m1 r1]] & I1 & d1 & R1 & _ & E1 & N1 & B1).
      destruct (FR b Ib) as ([s2 [m2 r2]] & I2 & d2 & R2 & _ & E2 & N2 & B2).
      assert (Es : s1 = s2) by congruence. subst s2 r1 r2.
      pose proof (NoDup_fst_inj stations _ _ _ N I1 I2) as X.
      injection X as -> ->. split; congruence.
    - destruct (FR a Ia) as ([s1 [m1 r1]] & _ & d1 & _ & T1 & _).
      destruct (FL b Ib) as (l2 & c2 & _ & _ & T2 & _). congruence.
    - destruct (FL a Ia) as (l1 & c1 & _ & _ & T1 & _).
      destruct (FR b Ib) as ([s2 [m2 r2]] & _ & d2 & _ & T2 & _). congruence.
    - destruct (FL a Ia) as (l1 & c1 & E1 & Q1 & _ & N1 & B1).
      destruct (FL b Ib) as (l2 & c2 & E2 & Q2 & _ & N2 & B2).
      assert (El : l1 = l2) by congruence. subst l2.
      assert (Ec : c1 = c2) by congruence. subst c2. split; congruence. }
  destruct X as [XB XN]. now apply sort_compare_fields.
Qed.

(** *** The guard of the sort *)

Lemma sort_values_some (l : list Row) :
  forallb sortable l = true -> sort_values l = Some (stable_sort l).
Proof. intros G. unfold sort_values. now rewrite G. Qed.

Lemma sortable_In (l l' : list Row) :
  (forall r, In r l' -> In r l) ->
  forallb sortable l = true -> forallb sortable l' = true.
Proof.
  intros I G. rewrite forallb_forall in *. intros r J. apply G, I, J.
Qed.

Lemma sortable_app (a b : list Row) :
  forallb sortable a = true -> forallb sortable b = true ->
  forallb sortable (a ++ b) = true.
Proof. intros A B. rewrite forallb_app, A, B. reflexivity. Qed.

Lemma sortable_sorted (l : list Row) :
  forallb sortable l = true -> forallb sortable (stable_sort l) = true.
Proof.
  apply sortable_In. intros r I.
  now apply (Permutation_in _ (Permutation_sym (stable_sort_perm l))).
Qed.

Lemma merge_none (incoming : list Row) :
  forallb sortable incoming = true ->
  merge None incoming = Some (stable_sort incoming).
Proof. intros G. unfold merge. now rewrite (sort_values_some _ G). Qed.

Lemma merge_existing (old incoming : list Row) :
  forallb sortable old = true -> forallb sortable incoming = true ->
  merge (Some (Ok old)) incoming
  = Some (stable_sort (drop_duplicates_last (old ++ stable_sort incoming))).
Proof.
  intros Go Gi. unfold merge. rewrite (sort_values_some _ Gi).
  apply sort_values_some.
  apply (sortable_In (old ++ stable_sort incoming)).
  - intros r. apply drop_duplicates_last_In.
  - apply sortable_app; [exact Go | now apply sortable_sorted].
Qed.

(** Every row of the batch carries a text id. *)
Lemma collect_ids `{Runtime} (start : date) (y nm : Z)
  (scfg : list (str * station_conf)) (lcfg : list (str * lake_conf))
  (stations : list (str * (station_meta * option pydict)))
  (lake_data : list pydict) (r : Row) :
  In r (collect start y nm scfg lcfg stations lake_data) ->
  exists s, r_id r = IdStr s.
Proof.
  unfold collect.
  destruct (rivers_loop_rows start y nm scfg stations []) as (rs & -> & FR).
  destruct (lake_loop_rows start lcfg lake_data ([] ++ rs)) as (ls & -> & FL).
  rewrite Forall_forall in FR, FL. simpl. intros I.
  apply in_app_or in I as [I|I].
  - destruct (FR r I) as ([sid [meta resp]] & _ & d & _ & _ & E & _). now exists sid.
  - destruct (FL r I) as (lc & conf & E & _). now exists lc.
Qed.

(** A row whose id is an integer has the key of no row whose id is a text. *)
Lemma integer_id_is_fresh (r : Row) (n : Z) (batch : list Row) :
  r_id r = IdInt n ->
  (forall b, In b batch -> exists s, r_id b = IdStr s) ->
  existsb (same_key r) batch = false.
Proof.
  intros E T. apply not_true_is_false. intros X.
  apply existsb_exists in X as (b & I & K).
  destruct (T b I) as (s & Eb). unfold same_key in K. rewrite E, Eb in K.
  destruct (type_compare (r_type r) (r_type b)),
    (timestamp_compare (r_timestamp_utc r) (r_timestamp_utc b)); discriminate.
Qed.

(** X1. The merge on frames whose basins and names are texts or missing.
    A first run writes the batch sorted by (type, basin, name, timestamp), and
    does not deduplicate it. With a prior frame the result is sorted by the
    same key; its rows come from [existing ++ incoming]; every key of that
    list is kept once, a key being compared with the types of its cells; the
    row kept for a key of the batch is a row of the batch; and the result is
    [existing ++ incoming] deduplicated keeping the last occurrence, then
    sorted, when the rows of one key of the batch carry one name and one
    basin, which holds for every batch the two loops of [main] build. For
    such a batch every id is a text, so a row of the prior frame whose id was
    read as an integer is never replaced. *)
Theorem merge_typed_frames (old incoming : list Row) :
  forallb sortable old = true -> forallb sortable incoming = true ->
  exists first merged,
    merge None incoming = Some first
    /\ merge (Some (Ok old)) incoming = Some merged
    /\ StronglySorted row_le first
    /\ Permutation incoming first
    /\ StronglySorted row_le merged
    /\ NoDup (map dedup_key merged)
    /\ (forall r, In r merged -> In r (old ++ incoming))
    /\ (forall r, In r (old ++ incoming) ->
                  exists r', In r' merged /\ dedup_key r' = dedup_key r)
    /\ (forall r r', In r incoming -> In r' merged ->
                     dedup_key r' = dedup_key r -> In r' incoming)
    /\ (coherent incoming ->
        sort_values (drop_duplicates_last (old ++ incoming)) = Some merged)
    /\ (forall (rt : Runtime) start y nm scfg lcfg stations lake_data,
          NoDup (map fst stations) ->
          incoming = collect start y nm scfg lcfg stations lake_data ->
          sort_values (drop_duplicates_last (old ++ incoming)) = Some merged
          /\ forall r n, In r (drop_duplicates_last old) -> r_id r = IdInt n ->
                         In r merged).
Proof.
  intros Go Gi.
  exists (stable_sort incoming),
    (stable_sort (drop_duplicates_last (old ++ stable_sort incoming))).
  pose proof (stable_sort_perm (drop_duplicates_last (old ++ stable_sort incoming)))
    as P. apply Permutation_sym in P.
  pose proof (stable_sort_perm incoming) as Q.
  assert (Gc : forallb sortable (drop_duplicates_last (old ++ incoming)) = true).
  { apply (sortable_In (old ++ incoming)).
    - intros r. apply drop_duplicates_last_In.
    - now apply sortable_app. }
  split; [now apply merge_none|].
  split; [now apply merge_existing|].
  split; [apply stable_sort_sorted|].
  split; [exact Q|].
  split; [apply stable_sort_sorted|].
  split.
  { apply (Permutation_NoDup (Permutation_map dedup_key (Permutation_sym P))).
    apply drop_duplicates_last_NoDup. }
  split.
  { intros r I. apply (Permutation_in _ P) in I.
    apply drop_duplicates_last_In in I.
    apply in_app_or in I as [I|I]; apply in_or_app; [now left | right].
    now apply (Permutation_in _ (Permutation_sym Q)). }
  split.
  { intros r I.
    assert (I' : In r (old ++ stable_sort incoming)).
    { apply in_app_or in I as [I|I]; apply in_or_app; [now left | right].
      now apply (Permutation_in _ Q). }
    destruct (drop_duplicates_last_keeps r _ I') as (r' & J & K).
    exists r'. split; [|exact K].
    now apply (Permutation_in _ (Permutation_sym P)). }
  split.
  { intros r r' I J K. apply (Permutation_in _ P) in J.
    rewrite drop_duplicates_last_app in J.
    apply in_app_or in J as [J|J].
    - exfalso. apply filter_In in J as [_ N].
      apply negb_true_iff in N.
      assert (T : existsb (same_key r') (stable_sort incoming) = true).
      { apply existsb_exists. exists r. split.
        - now apply (Permutation_in _ Q).
        - now apply same_key_iff. }
      congruence.
    - apply drop_duplicates_last_In in J.
      now apply (Permutation_in _ (Permutation_sym Q)). }
  split.
  { intros C. rewrite (sort_values_some _ Gc). f_equal. symmetry.
    now apply merge_presorted. }
  intros rt start y nm scfg lcfg stations lake_data N E.
  split.
  { rewrite (sort_values_some _ Gc). f_equal. symmetry.
    apply merge_presorted. rewrite E. now apply collect_coherent. }
  intros r n I En. apply (Permutation_in _ (Permutation_sym P)).
  rewrite drop_duplicates_last_app. apply in_or_app. left.
  apply filter_In. split; [exact I|]. apply negb_true_iff.
  apply (integer_id_is_fresh r n); [exact En|].
  intros b J. apply (Permutation_in _ (Permutation_sym Q)) in J.
  rewrite E in J. now apply (collect_ids start y nm scfg lcfg stations lake_data).
Qed.

(** X1 on a prior frame of two river rows, one read with an integer id and
    one with a text id, and a batch that holds the key of the second. *)
Lemma merge_typed_frames_witness :
  let t := Some {| s_year := 2024; s_month := 11; s_day := 15;
                   s_hour := 0; s_minute := 0 |} in
  let row (id : id_cell) (v : float) :=
    {| r_type := River; r_id := id; r_name := JStr (L "Station");
       r_basin := JStr (L "Basin"); r_province := JNull; r_timestamp_utc := t;
       r_water_level_m := JFloat v; r_alert_status := JNull; r_columns := [] |} in
  let old := [row (IdInt 7) 1%float; row (IdStr (L "A7")) 1.25%float] in
  let incoming := [row (IdStr (L "A7")) 1.5%float] in
  forallb sortable old = true /\ forallb sortable incoming = true
  /\ exists first merged,
       merge None incoming = Some first
       /\ merge (Some (Ok old)) incoming = Some merged
       /\ NoDup (map dedup_key merged).
Proof.
  intros t row old incoming.
  split; [reflexivity|]. split; [reflexivity|].
  destruct (merge_typed_frames old incoming eq_refl eq_refl)
    as (first & merged & M1 & M2 & _ & _ & _ & U & _).
  exists first, merged. repeat split; assumption.
Defined.

(** C1. The scenario of the specification, run by the program. A first run
    finds no file and writes its batch, the key (River, "012", 2024-11-15
    00:00) with level 1.25. The id column of that file is all digits, so
    the next run reads it back as int64: the stored row has the id 12. The
    batch of the next run holds the same key with level 1.5 and the text id
    "012", which [drop_duplicates] finds different from 12: both rows are
    written, the stored level with them. Read back once more, the two rows
    have the same id. And a first run whose batch holds one key twice writes
    both rows, since only the merge with a prior file deduplicates. *)
Theorem merge_keeps_stored_value :
  let t := Some {| s_year := 2024; s_month := 11; s_day := 15;
                   s_hour := 0; s_minute := 0 |} in
  let row (id : id_cell) (v : float) :=
    {| r_type := River; r_id := id; r_name := JStr (L "Station");
       r_basin := JStr (L "Basin"); r_province := JStr (L "Province");
       r_timestamp_utc := t; r_water_level_m := JFloat v;
       r_alert_status := JStr (alert_name_from_value 0); r_columns := [] |} in
  let first_batch := [row (IdStr (L "012")) 1.25%float] in
  let next_batch := [row (IdStr (L "012")) 1.5%float] in
  let stored := [row (IdInt 12) 1.25%float] in
  merge None first_batch = Some first_batch
  /\ option_map (map (fun id => row id 1.25%float))
       (read_id_column (map (fun r => id_text (r_id r)) first_batch))
     = Some stored
  /\ merge (Some (Ok stored)) next_batch
     = Some [row (IdInt 12) 1.25%float; row (IdStr (L "012")) 1.5%float]
  /\ read_id_column (map id_text [IdInt 12; IdStr (L "012")])
     = Some [IdInt 12; IdInt 12]
  /\ merge None (first_batch ++ next_batch) = Some (first_batch ++ next_batch).
Proof. vm_compute. repeat split; reflexivity. Qed.

(** The same two runs when the file keeps its ids as texts (a file that also
    holds a lake code with a letter, say): the stored row is replaced. *)
Example merge_override_example :
  let t := Some {| s_year := 2024; s_month := 11; s_day := 15;
                   s_hour := 0; s_minute := 0 |} in
  let row (v : float) :=
    {| r_type := River; r_id := IdStr (L "012"); r_name := JStr (L "Station");
       r_basin := JStr (L "Basin"); r_province := JNull; r_timestamp_utc := t;
       r_water_level_m := JFloat v; r_alert_status := JNull; r_columns := [] |} in
  merge (Some (Ok [row 1.25%float])) [row 1.5%float] = Some [row 1.5%float]
  /\ export None [] = Some NotWritten.
Proof. split; reflexivity. Qed.

(* ================================================================== *)
(** ** FetchWindowPlanner *)

Lemma fold_max_latest (col : list (option stamp)) (acc : option stamp) :
  match fold_left max_step col acc with
  | Some m =>
      (acc = Some m \/ In (Some m) col)
      /\ (forall t, acc = Some t \/ In (Some t) col -> stamp_compare t m <> Gt)
  | None => acc = None /\ forall t, ~ In (Some t) col
  end.
Proof.
  pose proof total_cmp_stamp as O.
  revert acc. induction col as [|c col IH]; intros acc; simpl.
  - destruct acc as [a|].
    + split; [now left|]. intros t [[= ->]|[]].
      rewrite (cmp_refl _ O). discriminate.
    + split; [reflexivity | tauto].
  - specialize (IH (max_step acc c)).
    destruct (fold_left max_step col (max_step acc c)) as [m|].
    + destruct IH as [I B]. split.
      * destruct I as [I|I]; [|now right; right].
        destruct acc as [a|], c as [b|]; simpl in I; auto.
        destruct (stamp_compare a b); injection I as <-; auto.
      * intros t [E|[E|E]].
        -- subst acc. destruct c as [b|]; simpl in B.
           ++ destruct (stamp_compare t b) eqn:C.
              ** apply B. now left.
              ** apply (cmp_le_trans _ O t b m); [congruence|]. apply B. now left.
              ** apply B. now left.
           ++ apply B. now left.
        -- subst c. destruct acc as [a|]; simpl in B.
           ++ destruct (stamp_compare a t) eqn:C.
              ** apply (cmp_le_trans _ O t a m).
                 --- rewrite (cmp_eq_sym _ O a t C). discriminate.
                 --- apply B. now left.
              ** apply B. now left.
              ** apply (cmp_le_trans _ O t a m).
                 --- rewrite (cmp_gt_lt _ O a t C). discriminate.
                 --- apply B. now left.
           ++ apply B. now left.
        -- apply B. now right.
    + destruct IH as [E N]. destruct acc as [a|], c as [b|]; simpl in E;
        try discriminate.
      * destruct (stamp_compare a b); discriminate.
      * split; [reflexivity|]. intros t [F|F]; [discriminate | now apply (N t)].
Qed.

(** [column_max] is the latest present timestamp of the column. *)
Lemma column_max_latest (col : list (option stamp)) :
  match column_max col with
  | Some m => In (Some m) col /\ forall t, In (Some t) col -> stamp_compare t m <> Gt
  | None => forall t, ~ In (Some t) col
  end.
Proof.
  pose proof (fold_max_latest col None) as F.
  change (column_max col) with (fold_left max_step col None).
  destruct (fold_left max_step col None) as [m|].
  - destruct F as [[F|F] B]; [discriminate|]. split; [exact F|].
    intros t I. apply B. now right.
  - now destruct F.
Qed.

Lemma round_trips_from_spec (n : nat) (start m : Z) :
  round_trips_from start n = true ->
  start <= m < start + Z.of_nat n -> toordinal (fromordinal m) = m.
Proof.
  revert start. induction n as [|n IH]; intros start E B; [lia|].
  cbn [round_trips_from] in E. apply andb_true_iff in E as [E1 E2].
  destruct (Z.eq_dec m start) as [->|N]; [now apply Z.eqb_eq|].
  apply (IH (start + 1)); [exact E2 | lia].
Qed.

(** The ordinals of the years 1970 to 2199, and of the week before, are the
    ordinals of the dates they denote. *)
Lemma ordinal_round_trip (m : Z) :
  719000 <= m < 803200 -> toordinal (fromordinal m) = m.
Proof.
  intros B. apply (round_trips_from_spec (Z.to_nat 84200) 719000).
  - vm_compute. reflexivity.
  - rewrite Z2Nat.id; lia.
Qed.

Lemma days_before_year_bounds (y : Z) :
  1970 <= y <= 2199 -> 719162 <= days_before_year y <= 802803.
Proof.
  unfold days_before_year. intros B. cbv zeta.
  pose proof (Z.div_mod (y - 1) 4 ltac:(lia)).
  pose proof (Z.mod_pos_bound (y - 1) 4 ltac:(lia)).
  pose proof (Z.div_mod (y - 1) 100 ltac:(lia)).
  pose proof (Z.mod_pos_bound (y - 1) 100 ltac:(lia)).
  pose proof (Z.div_mod (y - 1) 400 ltac:(lia)).
  pose proof (Z.mod_pos_bound (y - 1) 400 ltac:(lia)).
  lia.
Qed.

Lemma days_before_month_bounds (y m : Z) :
  1 <= m <= 12 -> 0 <= days_before_month y m <= 335.
Proof.
  intros B. unfold days_before_month, days_before_month_table.
  assert (C : m = 1 \/ m = 2 \/ m = 3 \/ m = 4 \/ m = 5 \/ m = 6 \/ m = 7
              \/ m = 8 \/ m = 9 \/ m = 10 \/ m = 11 \/ m = 12) by lia.
  destruct C as [->|[->|[->|[->|[->|[->|[->|[->|[->|[->|[->| ->]]]]]]]]]]];
    simpl; destruct (is_leap y); simpl; lia.
Qed.

Lemma toordinal_bounds (d : date) :
  1970 <= d_year d <= 2199 -> 1 <= d_month d <= 12 -> 1 <= d_day d <= 31 ->
  719163 <= toordinal d < 803200.
Proof.
  intros By Bm Bd. unfold toordinal.
  pose proof (days_before_year_bounds (d_year d) By).
  pose proof (days_before_month_bounds (d_year d) (d_month d) Bm). lia.
Qed.

(** C7. The end date is today. With no prior timestamp (no file, a file that
    cannot be read, or no timestamp in it) the start date is today minus six
    days; with a prior latest timestamp whose date is not after today the
    start date is that date; with one whose date is after today the start
    date is today minus six days. Today minus six days is the date six
    ordinals before today (checked for every day of 1970 to 2199), and for
    today = 2024-11-20 and no prior dataset the window is
    2024-11-14 .. 2024-11-20. *)
Theorem fetch_window_plan (csv : csv_meta) (today : date) :
  DEFAULT_END_DATE today = today
  /\ (latest_timestamp csv = None ->
      DEFAULT_START_DATE csv today = date_minus_days today 6)
  /\ (forall ts,
        latest_timestamp csv = Some ts ->
        date_ltb today (date_of_stamp ts) = false ->
        DEFAULT_START_DATE csv today = date_of_stamp ts)
  /\ (forall ts,
        latest_timestamp csv = Some ts ->
        date_ltb today (date_of_stamp ts) = true ->
        DEFAULT_START_DATE csv today = date_minus_days today 6)
  /\ (forall col ts,
        csv = TimeColumn col -> latest_timestamp csv = Some ts ->
        In (Some ts) col /\ forall t, In (Some t) col -> stamp_compare t ts <> Gt)
  /\ (1970 <= d_year today <= 2199 -> 1 <= d_month today <= 12 ->
      1 <= d_day today <= 31 ->
      toordinal (date_minus_days today 6) = toordinal today - 6)
  /\ DEFAULT_START_DATE NoFile {| d_year := 2024; d_month := 11; d_day := 20 |}
     = {| d_year := 2024; d_month := 11; d_day := 14 |}.
Proof.
  unfold DEFAULT_START_DATE, DEFAULT_END_DATE, latest_timestamp.
  split; [reflexivity|].
  split.
  { destruct csv as [| |col]; try reflexivity. intros ->. reflexivity. }
  split.
  { intros ts E W. destruct csv as [| |col]; try discriminate.
    rewrite E, W. reflexivity. }
  split.
  { intros ts E W. destruct csv as [| |col]; try discriminate.
    rewrite E, W. reflexivity. }
  split.
  { intros col ts -> E. pose proof (column_max_latest col) as M.
    rewrite E in M. exact M. }
  split; [|reflexivity].
  intros By Bm Bd. unfold date_minus_days.
  pose proof (toordinal_bounds today By Bm Bd).
  apply ordinal_round_trip. lia.
Qed.

(* ================================================================== *)
(** ** The matcher *)

Lemma run_length_le_length (k : cls) (bound : option nat) (s : str) :
  (run_length k bound s <= List.length s)%nat.
Proof.
  revert bound. induction s as [|c s IH]; intros bound; simpl; [lia|].
  destruct (cls_test k c); [|lia].
  destruct bound as [[|b]|]; [lia | specialize (IH (Some b)); lia
                             | specialize (IH None); lia].
Qed.

Lemma run_length_le_bound (k : cls) (b : nat) (s : str) :
  (run_length k (Some b) s <= b)%nat.
Proof.
  revert b. induction s as [|c s IH]; intros b; simpl; [lia|].
  destruct (cls_test k c); [|lia].
  destruct b as [|b]; [lia | specialize (IH b); lia].
Qed.

Lemma run_length_all_in (k : cls) (bound : option nat) (s : str) (n : nat) :
  (n <= run_length k bound s)%nat -> all_in k (firstn n s).
Proof.
  revert bound n. induction s as [|c s IH]; intros bound n Hn.
  - rewrite firstn_nil. constructor.
  - destruct n as [|n]; [constructor|].
    simpl in Hn. destruct (cls_test k c) eqn:E; [|lia].
    simpl. constructor; [exact E|].
    destruct bound as [[|b]|]; [lia | apply (IH (Some b)); lia
                               | apply (IH None); lia].
Qed.

Lemma backtrack_eq (p : piece) (rest : str -> option rmatch) (s : str) (n : nat) :
  backtrack p rest s n
  = if (n <? p_min p)%nat then None
    else match rest (skipn n s) with
         | Some m => Some (take_piece p n s m)
         | None => match n with
                   | O => None
                   | S n' => backtrack p rest s n'
                   end
         end.
Proof. destruct n; reflexivity. Qed.

Lemma backtrack_inv (p : piece) (rest : str -> option rmatch) (s : str) (n : nat)
  (m : rmatch) :
  backtrack p rest s n = Some m ->
  exists n' m', (p_min p <= n' <= n)%nat
                /\ rest (skipn n' s) = Some m' /\ m = take_piece p n' s m'.
Proof.
  induction n as [|n IH]; rewrite backtrack_eq.
  - destruct (0 <? p_min p)%nat eqn:L; [discriminate|].
    apply Nat.ltb_ge in L.
    destruct (rest (skipn 0 s)) as [m'|] eqn:R; [|discriminate].
    intros [= <-]. exists O, m'. repeat split; try assumption; lia.
  - destruct (S n <? p_min p)%nat eqn:L; [discriminate|].
    apply Nat.ltb_ge in L.
    destruct (rest (skipn (S n) s)) as [m'|] eqn:R.
    + intros [= <-]. exists (S n), m'. repeat split; try assumption; lia.
    + intros E. destruct (IH E) as (n' & m' & B & R' & ->).
      exists n', m'. repeat split; try assumption; lia.
Qed.

(** What a match of [p :: ps] is made of. *)
Lemma match_here_cons_inv (p : piece) (ps : list piece) (s : str) (m : rmatch) :
  match_here (p :: ps) s = Some m ->
  exists a s' m',
    s = a ++ s' /\ all_in (p_cls p) a /\ fits p a
    /\ match_here ps s' = Some m' /\ m = took p a m'.
Proof.
  simpl. intros E. apply backtrack_inv in E as (n & m' & [B1 B2] & R & ->).
  exists (firstn n s), (skipn n s), m'.
  assert (Ln : List.length (firstn n s) = n).
  { apply firstn_length_le.
    pose proof (run_length_le_length (p_cls p) (p_max p) s). lia. }
  split; [now rewrite firstn_skipn|].
  split; [now apply run_length_all_in with (p_max p)|].
  split; [|split; [exact R | reflexivity]].
  unfold fits. rewrite Ln. split; [exact B1|].
  destruct (p_max p) as [b|] eqn:M; [|exact I].
  pose proof (run_length_le_bound (p_cls p) b s). lia.
Qed.

Lemma search_inv (ps : list piece) (s : str) (m : rmatch) :
  search ps s = Some m -> exists pre s', s = pre ++ s' /\ match_here ps s' = Some m.
Proof.
  induction s as [|c s IH]; simpl.
  - destruct (match_here ps []) as [m'|] eqn:E; [|discriminate].
    intros [= <-]. now exists [], [].
  - destruct (match_here ps (c :: s)) as [m'|] eqn:E.
    + intros [= <-]. now exists [], (c :: s).
    + intros F. destruct (IH F) as (pre & s' & -> & M).
      now exists (c :: pre), s'.
Qed.

Lemma search_here (ps : list piece) (s : str) (m : rmatch) :
  match_here ps s = Some m -> search ps s = Some m.
Proof. intros E. destruct s; simpl; now rewrite E. Qed.

(** The run of a class at the head of [a ++ rest] is [a] when [a] is in the
    class and either the bound is reached or [rest] does not go on with the
    class. *)
Lemma run_length_app (k : cls) (bound : option nat) (a rest : str) :
  all_in k a ->
  bound = Some (List.length a)
  \/ (match bound with Some b => (List.length a <= b)%nat | None => True end
      /\ match rest with c :: _ => cls_test k c = false | [] => True end) ->
  run_length k bound (a ++ rest) = List.length a.
Proof.
  intros A. revert bound. induction A as [|c a Hc A IH]; intros bound Hb; simpl.
  - destruct rest as [|c rest]; [reflexivity|].
    destruct Hb as [->|[_ Hr]]; simpl; [now destruct (cls_test k c)|].
    now rewrite Hr.
  - rewrite Hc. destruct bound as [[|b]|].
    + destruct Hb as [[=]|[Hb _]]. simpl in Hb. lia.
    + f_equal. apply IH. destruct Hb as [[= ->]|[Hb Hr]]; [now left|].
      right. split; [simpl in Hb; lia | exact Hr].
    + f_equal. apply IH. destruct Hb as [[=]|[_ Hr]]. right. now split.
Qed.

Lemma skipn_length_app (a rest : str) : skipn (List.length a) (a ++ rest) = rest.
Proof. induction a; simpl; auto. Qed.

Lemma firstn_length_app (a rest : str) : firstn (List.length a) (a ++ rest) = a.
Proof. induction a; simpl; congruence. Qed.

(** A piece that takes its whole run at once, the rest matching after it. *)
Lemma match_here_cons (p : piece) (ps : list piece) (a rest : str) (m : rmatch) :
  (p_min p <= List.length a)%nat ->
  run_length (p_cls p) (p_max p) (a ++ rest) = List.length a ->
  match_here ps rest = Some m ->
  match_here (p :: ps) (a ++ rest) = Some (took p a m).
Proof.
  intros Hmin Hrun Hrest. simpl. rewrite Hrun, backtrack_eq.
  destruct (List.length a <? p_min p)%nat eqn:L;
    [apply Nat.ltb_lt in L; lia|].
  rewrite skipn_length_app, Hrest. unfold take_piece, took.
  now rewrite firstn_length_app.
Qed.

(** *** Digits and spaces *)

Lemma digit_not_space (c : ascii) : is_digit c = true -> is_space c = false.
Proof.
  unfold is_digit, is_space. intros D.
  apply andb_true_iff in D as [D1 D2]. apply Z.leb_le in D1, D2.
  cbv zeta. revert D1 D2. generalize (code c). intros n D1 D2.
  rewrite !orb_false_iff, !andb_false_iff, !Z.leb_gt, !Z.eqb_neq. lia.
Qed.

Lemma digit_value (c : ascii) : is_digit c = true -> 0 <= code c - 48 <= 9.
Proof.
  unfold is_digit. intros D. apply andb_true_iff in D as [D1 D2].
  apply Z.leb_le in D1, D2. lia.
Qed.

Lemma is_digits12_inv (s : str) :
  is_digits12 s = true ->
  all_in Digit s /\ (1 <= List.length s <= 2)%nat /\ 0 <= int_of_digits s <= 99.
Proof.
  destruct s as [|a [|b [|c s]]]; simpl; try discriminate.
  - intros D. split; [repeat constructor; exact D|].
    split; [lia|]. unfold int_of_digits. cbn [fold_left].
    pose proof (digit_value a D). lia.
  - intros D. apply andb_true_iff in D as [Da Db].
    split; [repeat constructor; assumption|].
    split; [lia|]. unfold int_of_digits. cbn [fold_left].
    pose proof (digit_value a Da). pose proof (digit_value b Db). lia.
Qed.

Lemma captured_digits (a : str) :
  all_in Digit a -> fits digits12 a -> is_digits12 a = true.
Proof.
  intros A [F1 F2]. simpl in F1, F2.
  destruct a as [|x [|y [|z a]]]; simpl in *; try lia.
  - now inversion A.
  - inversion A as [|? ? Hx A']. inversion A' as [|? ? Hy _]. simpl in *.
    now rewrite Hx, Hy.
Qed.

(* ================================================================== *)
(** ** TimeLabelParser *)

Lemma one_took (c : ascii) (a : str) :
  all_in (Chr c) a -> fits (one c) a -> a = [c].
Proof.
  intros A [F1 F2]. simpl in F1, F2.
  destruct a as [|x [|y a]]; simpl in *; try lia.
  inversion A as [|? ? Hx _]. simpl in Hx. apply Ascii.eqb_eq in Hx. now subst.
Qed.

(** The shape of a text that [re_new] matches at its start. *)
Lemma re_new_inv (s : str) (m : rmatch) :
  match_here re_new s = Some m ->
  exists hs ws ds ms post,
    s = hs ++ "h"%char :: ws ++ ds ++ "/"%char :: ms ++ post
    /\ is_digits12 hs = true /\ ws <> [] /\ all_in Space ws
    /\ is_digits12 ds = true /\ is_digits12 ms = true
    /\ m_groups m = [hs; ds; ms].
Proof.
  intros E. unfold re_new in E.
  apply match_here_cons_inv in E as (hs & s1 & m1 & -> & A1 & F1 & E & ->).
  apply match_here_cons_inv in E as (a2 & s2 & m2 & -> & A2 & F2 & E & ->).
  apply match_here_cons_inv in E as (ws & s3 & m3 & -> & A3 & F3 & E & ->).
  apply match_here_cons_inv in E as (ds & s4 & m4 & -> & A4 & F4 & E & ->).
  apply match_here_cons_inv in E as (a5 & s5 & m5 & -> & A5 & F5 & E & ->).
  apply match_here_cons_inv in E as (ms & post & m6 & -> & A6 & F6 & E & ->).
  injection E as <-.
  rewrite (one_took _ _ A2 F2), (one_took _ _ A5 F5).
  exists hs, ws, ds, ms, post. simpl.
  repeat split; try (apply captured_digits; assumption); try assumption.
  intros ->. destruct F3 as [F3 _]. simpl in F3. lia.
Qed.

(** The shape of a text that [re_old] matches at its start. *)
Lemma re_old_inv (s : str) (m : rmatch) :
  match_here re_old s = Some m ->
  exists hs mins ds post,
    s = hs ++ "h"%char :: mins ++ "/"%char :: ds ++ post
    /\ is_digits12 hs = true /\ is_digits12 mins = true /\ is_digits12 ds = true
    /\ m_groups m = [hs; mins; ds].
Proof.
  intros E. unfold re_old in E.
  apply match_here_cons_inv in E as (hs & s1 & m1 & -> & A1 & F1 & E & ->).
  apply match_here_cons_inv in E as (a2 & s2 & m2 & -> & A2 & F2 & E & ->).
  apply match_here_cons_inv in E as (mins & s3 & m3 & -> & A3 & F3 & E & ->).
  apply match_here_cons_inv in E as (a4 & s4 & m4 & -> & A4 & F4 & E & ->).
  apply match_here_cons_inv in E as (ds & post & m5 & -> & A5 & F5 & E & ->).
  injection E as <-.
  rewrite (one_took _ _ A2 F2), (one_took _ _ A4 F4).
  exists hs, mins, ds, post. simpl.
  repeat split; try (apply captured_digits; assumption).
Qed.

(** A text that [re_new] matches somewhere holds a white-space character. *)
Lemma re_new_needs_space (s : str) (m : rmatch) :
  search re_new s = Some m -> exists w, In w s /\ is_space w = true.
Proof.
  intros E. apply search_inv in E as (pre & s' & -> & E).
  apply re_new_inv in E as (hs & ws & ds & ms & post & -> & _ & N & A & _).
  destruct ws as [|w ws]; [congruence|]. exists w. split.
  - apply in_or_app. right. apply in_or_app. right. right. now left.
  - now inversion A.
Qed.

Lemma c_int_small (n : Z) : -1 <= n <= 9999 -> c_int n = true.
Proof.
  intros B. unfold c_int. apply andb_true_iff.
  split; [apply Z.leb_le | apply Z.ltb_lt]; lia.
Qed.

(** With arguments that fit a C int the constructor only raises
    [ValueError]. *)
Lemma datetime_new_fit (y m d hh mi : Z) :
  c_int y = true -> c_int m = true -> c_int d = true ->
  c_int hh = true -> c_int mi = true ->
  except_ValueError (dt <- datetime_new y m d hh mi ;; Ok (localized dt))
  = Ok (if valid_fields y m d hh mi then Some (local_datetime y m d hh mi) else None).
Proof.
  intros Cy Cm Cd Ch Ci. unfold datetime_new. rewrite Cy, Cm, Cd, Ch, Ci.
  cbn [andb negb]. destruct (valid_fields y m d hh mi); reflexivity.
Qed.

Lemma case_new_eq (clean : str) (y nm : Z) :
  - 2 ^ 31 < y < 2 ^ 31 ->
  case_new clean y nm
  = Ok match search re_new clean with
       | Some m => fields_new m y nm
       | None => None
       end.
Proof.
  intros By. unfold case_new, fields_new.
  destruct (search re_new clean) as [m|] eqn:S; [|reflexivity].
  apply search_inv in S as (pre & s' & _ & S).
  apply re_new_inv in S as (hs & ws & ds & ms & post & _ & Dh & _ & _ & Dd & Dm & G).
  unfold group. rewrite G. cbn [nth].
  apply is_digits12_inv in Dh as (_ & _ & Bh), Dd as (_ & _ & Bd), Dm as (_ & _ & Bm).
  apply datetime_new_fit; try (apply c_int_small; lia).
  unfold c_int, year_to_use.
  destruct ((int_of_digits ms =? 12) && (nm =? 1));
    apply andb_true_iff; split; try apply Z.leb_le; try apply Z.ltb_lt; lia.
Qed.

Lemma case_old_eq (clean : str) (y nm : Z) :
  - 2 ^ 31 <= y < 2 ^ 31 -> - 2 ^ 31 <= nm < 2 ^ 31 ->
  case_old clean y nm
  = Ok match search re_old clean with
       | Some m => fields_old m y nm
       | None => None
       end.
Proof.
  intros By Bn. unfold case_old, fields_old.
  destruct (search re_old clean) as [m|] eqn:S; [|reflexivity].
  apply search_inv in S as (pre & s' & _ & S).
  apply re_old_inv in S as (hs & mins & ds & post & _ & Dh & Dm & Dd & G).
  unfold group. rewrite G. cbn [nth].
  apply is_digits12_inv in Dh as (_ & _ & Bh), Dd as (_ & _ & Bd), Dm as (_ & _ & Bm).
  apply datetime_new_fit; try (apply c_int_small; lia);
    unfold c_int; apply andb_true_iff; split;
    try apply Z.leb_le; try apply Z.ltb_lt; lia.
Qed.

(** C4 (as amended). For a reference year above the least C int and below
    2^31, so that the year before it fits a C int as well, [parse_river_dt]
    never raises: it returns a timestamp or no value. Case A is tried first
    and, when it yields a timestamp, decides alone. Case B is tried when
    Case A yields nothing, which is when its pattern does not match or when
    the fields it matched are not a constructible date; Case B in turn yields
    nothing when its pattern does not match or its fields are not a
    constructible date, and then the result is no value. *)
Theorem parse_river_dt_total (lbl : str) (current_year now_month : Z) :
  - 2 ^ 31 < current_year < 2 ^ 31 ->
  1 <= now_month <= 12 ->
  (exists r, parse_river_dt lbl current_year now_month = Ok r)
  /\ (lbl = [] -> parse_river_dt lbl current_year now_month = Ok None)
  /\ (lbl <> [] ->
      parse_river_dt lbl current_year now_month
      = Ok match search re_new (strip lbl) with
           | Some m_new =>
               match fields_new m_new current_year now_month with
               | Some dt => Some dt
               | None =>
                   match search re_old (strip lbl) with
                   | Some m_old => fields_old m_old current_year now_month
                   | None => None
                   end
               end
           | None =>
               match search re_old (strip lbl) with
               | Some m_old => fields_old m_old current_year now_month
               | None => None
               end
           end)
  /\ (forall dt,
        lbl <> [] ->
        case_new (strip lbl) current_year now_month = Ok (Some dt) ->
        parse_river_dt lbl current_year now_month = Ok (Some dt))
  /\ (lbl <> [] ->
      search re_new (strip lbl) = None ->
      search re_old (strip lbl) = None ->
      parse_river_dt lbl current_year now_month = Ok None).
Proof.
  intros By Bn.
  assert (E : lbl <> [] ->
              parse_river_dt lbl current_year now_month
              = Ok match search re_new (strip lbl) with
                   | Some m_new =>
                       match fields_new m_new current_year now_month with
                       | Some dt => Some dt
                       | None =>
                           match search re_old (strip lbl) with
                           | Some m_old => fields_old m_old current_year now_month
                           | None => None
                           end
                       end
                   | None =>
                       match search re_old (strip lbl) with
                       | Some m_old => fields_old m_old current_year now_month
                       | None => None
                       end
                   end).
  { intros N. destruct lbl as [|c lbl]; [congruence|].
    unfold parse_river_dt.
    rewrite (case_new_eq _ _ _ By). cbn [bind].
    rewrite (case_old_eq _ current_year now_month) by lia.
    destruct (search re_new (strip (c :: lbl))) as [m|]; [|reflexivity].
    destruct (fields_new m current_year now_month); reflexivity. }
  split.
  { destruct lbl as [|c lbl]; [now exists None|].
    rewrite E by discriminate. eexists. reflexivity. }
  split; [intros ->; reflexivity|].
  split; [exact E|].
  split.
  { intros dt N A. destruct lbl as [|c lbl]; [congruence|].
    unfold parse_river_dt. rewrite A. reflexivity. }
  intros N SA SB. rewrite (E N), SA, SB. reflexivity.
Qed.

(** C4 on the label "1h2/3h 4/13" in November 2024. *)
Lemma parse_river_dt_total_witness :
  - 2 ^ 31 < 2024 < 2 ^ 31 /\ 1 <= 11 <= 12
  /\ exists r, parse_river_dt (L "1h2/3h 4/13") 2024 11 = Ok r.
Proof.
  split; [lia|]. split; [lia|].
  exact (proj1 (parse_river_dt_total (L "1h2/3h 4/13") 2024 11
                  ltac:(lia) ltac:(lia))).
Defined.

(** C4, the claim as stated fails twice. The text "1h2/3h 4/13" matches the
    pattern of Case A (hour 3, day 4, month 13), Case A alone yields no
    value, and the result is the timestamp Case B reads (hour 1, minute 2,
    day 3 of the current month). And with the least reference year that fits
    a C int, a December label read in January asks for the year before,
    which [datetime] refuses with an OverflowError that [except ValueError]
    does not catch. *)
Lemma parse_river_dt_not_as_claimed :
  (search re_new (strip (L "1h2/3h 4/13")) <> None
   /\ case_new (strip (L "1h2/3h 4/13")) 2024 11 = Ok None
   /\ parse_river_dt (L "1h2/3h 4/13") 2024 11
      = Ok (Some (local_datetime 2024 11 3 1 2)))
  /\ (c_int (- 2 ^ 31) = true
      /\ parse_river_dt (L "0h 1/12") (- 2 ^ 31) 1 = Raise OverflowError).
Proof.
  split.
  - split; [vm_compute; discriminate|]. split; vm_compute; reflexivity.
  - split; vm_compute; reflexivity.
Qed.

(** *** Labels of the two formats *)

Lemma rstrip_app (a b : str) : b <> [] -> rstrip b = b -> rstrip (a ++ b) = a ++ b.
Proof.
  intros N E. induction a as [|c a IH]; simpl; [exact E|].
  change (fold_right _ [] (a ++ b)) with (rstrip (a ++ b)). rewrite IH.
  destruct (a ++ b) eqn:F; [|reflexivity].
  apply app_eq_nil in F as [_ F]. congruence.
Qed.

Lemma rstrip_digits (s : str) : is_digits12 s = true -> rstrip s = s /\ s <> [].
Proof.
  destruct s as [|a [|b [|c s]]]; simpl; try discriminate.
  - intros D. rewrite (digit_not_space a D). split; [reflexivity | discriminate].
  - intros D. apply andb_true_iff in D as [Da Db].
    rewrite (digit_not_space b Db). split; [reflexivity | discriminate].
Qed.

(** A text that starts and ends with a digit is not changed by [strip]. *)
Lemma strip_digits (hs mid ms : str) :
  is_digits12 hs = true -> is_digits12 ms = true ->
  strip (hs ++ mid ++ ms) = hs ++ mid ++ ms.
Proof.
  intros Dh Dm. unfold strip.
  assert (E : lstrip (hs ++ mid ++ ms) = hs ++ mid ++ ms).
  { destruct hs as [|a hs]; [discriminate|]. simpl.
    assert (Da : is_digit a = true).
    { destruct hs as [|b [|c hs]]; simpl in Dh; try discriminate; [exact Dh|].
      now apply andb_true_iff in Dh as [Da _]. }
    now rewrite (digit_not_space a Da). }
  rewrite E, app_assoc. destruct (rstrip_digits ms Dm) as [R N].
  now apply rstrip_app.
Qed.

Lemma digits_head (s : str) :
  is_digits12 s = true -> exists c s', s = c :: s' /\ is_digit c = true.
Proof.
  destruct s as [|a [|b [|c s]]]; simpl; try discriminate; intros D.
  - now exists a, [].
  - apply andb_true_iff in D as [Da _]. now exists a, [b].
Qed.

(** One or two digits before a character that is not a digit, or at the end,
    are what [(\d{1,2})] takes. *)
Lemma digits12_run (a rest : str) :
  is_digits12 a = true ->
  match rest with c :: _ => is_digit c = false | [] => True end ->
  run_length Digit (Some 2%nat) (a ++ rest) = List.length a.
Proof.
  intros D R. apply is_digits12_inv in D as (A & B & _).
  apply run_length_app; [exact A|]. right. split; [lia | exact R].
Qed.

Lemma one_run (c : ascii) (rest : str) :
  run_length (Chr c) (Some 1%nat) ([c] ++ rest) = 1%nat.
Proof.
  apply (run_length_app (Chr c) (Some 1%nat) [c] rest).
  - repeat constructor. apply Ascii.eqb_refl.
  - now left.
Qed.

Lemma digits12_min (a : str) : is_digits12 a = true -> (1 <= List.length a)%nat.
Proof. intros D. apply is_digits12_inv in D as (_ & B & _). lia. Qed.

(** [re_new] on a label of Format A. *)
Lemma re_new_matches (hs ws ds ms : str) :
  is_digits12 hs = true -> ws <> [] -> all_in Space ws ->
  is_digits12 ds = true -> is_digits12 ms = true ->
  match_here re_new (hs ++ "h"%char :: ws ++ ds ++ "/"%char :: ms)
  = Some {| m_text := hs ++ "h"%char :: ws ++ ds ++ "/"%char :: ms;
            m_groups := [hs; ds; ms] |}.
Proof.
  intros Dh Nw Aw Dd Dm.
  assert (M6 : match_here [digits12] (ms ++ [])
               = Some (took digits12 ms {| m_text := []; m_groups := [] |})).
  { apply match_here_cons; [now apply digits12_min | | reflexivity].
    now apply digits12_run. }
  rewrite app_nil_r in M6.
  pose proof (match_here_cons (one "/") _ ["/"%char] ms _
                (Nat.le_refl 1) (one_run "/" ms) M6) as M5.
  pose proof (match_here_cons digits12 _ ds _ _
                (digits12_min ds Dd)
                (digits12_run ds (["/"%char] ++ ms) Dd eq_refl) M5) as M4.
  assert (Rw : run_length Space None (ws ++ ds ++ ["/"%char] ++ ms)
               = List.length ws).
  { apply run_length_app; [exact Aw|]. right. split; [exact I|].
    destruct (digits_head ds Dd) as (c & ds' & -> & Dc). simpl.
    now apply digit_not_space. }
  assert (Lw : (1 <= List.length ws)%nat).
  { destruct ws; [congruence | simpl; lia]. }
  pose proof (match_here_cons spaces _ ws _ _ Lw Rw M4) as M3.
  pose proof (match_here_cons (one "h") _ ["h"%char] _ _
                (Nat.le_refl 1) (one_run "h" _) M3) as M2.
  pose proof (match_here_cons digits12 _ hs _ _
                (digits12_min hs Dh)
                (digits12_run hs (["h"%char] ++ _) Dh eq_refl) M2) as M1.
  refine (eq_trans M1 _). unfold took. simpl. now rewrite app_nil_r.
Qed.

(** [re_old] on a label of Format B. *)
Lemma re_old_matches (hs mins ds : str) :
  is_digits12 hs = true -> is_digits12 mins = true -> is_digits12 ds = true ->
  match_here re_old (hs ++ "h"%char :: mins ++ "/"%char :: ds)
  = Some {| m_text := hs ++ "h"%char :: mins ++ "/"%char :: ds;
            m_groups := [hs; mins; ds] |}.
Proof.
  intros Dh Dm Dd.
  assert (M5 : match_here [digits12] (ds ++ [])
               = Some (took digits12 ds {| m_text := []; m_groups := [] |})).
  { apply match_here_cons; [now apply digits12_min | | reflexivity].
    now apply digits12_run. }
  rewrite app_nil_r in M5.
  pose proof (match_here_cons (one "/") _ ["/"%char] ds _
                (Nat.le_refl 1) (one_run "/" ds) M5) as M4.
  pose proof (match_here_cons digits12 _ mins _ _
                (digits12_min mins Dm)
                (digits12_run mins (["/"%char] ++ ds) Dm eq_refl) M4) as M3.
  pose proof (match_here_cons (one "h") _ ["h"%char] _ _
                (Nat.le_refl 1) (one_run "h" _) M3) as M2.
  pose proof (match_here_cons digits12 _ hs _ _
                (digits12_min hs Dh)
                (digits12_run hs (["h"%char] ++ _) Dh eq_refl) M2) as M1.
  refine (eq_trans M1 _). unfold took. simpl. now rewrite app_nil_r.
Qed.

Lemma valid_fields_year (y m d hh mi : Z) :
  valid_fields y m d hh mi = true -> 1 <= y <= 9999.
Proof.
  unfold valid_fields. rewrite !andb_true_iff, !Z.leb_le. lia.
Qed.

Lemma year_to_use_cases (y month nm : Z) :
  (month = 12 -> nm = 1 -> year_to_use y month nm = y - 1)
  /\ (~ (month = 12 /\ nm = 1) -> year_to_use y month nm = y).
Proof.
  unfold year_to_use. split.
  - intros -> ->. reflexivity.
  - intros N. destruct (Z.eqb_spec month 12), (Z.eqb_spec nm 1); simpl; tauto.
Qed.

Lemma parse_nonempty (lbl : str) (y nm : Z) :
  lbl <> [] ->
  parse_river_dt lbl y nm
  = (a <- case_new (strip lbl) y nm ;;
     match a with
     | Some dt => Ok (Some dt)
     | None => case_old (strip lbl) y nm
     end).
Proof. destruct lbl; [congruence | reflexivity]. Qed.

Lemma digits_no_space (s : str) (w : ascii) :
  is_digits12 s = true -> In w s -> is_space w = false.
Proof.
  intros D I. apply is_digits12_inv in D as (A & _).
  unfold all_in in A. rewrite Forall_forall in A.
  apply digit_not_space. now apply (A w).
Qed.

(** C5. For a label of Format A -- one or two digits, "h", white space, one
    or two digits, "/", one or two digits -- whose fields are a constructible
    date, [parse_river_dt] returns a timestamp with the hour, day and month
    of the label, minute 0, in the zone Asia/Ho_Chi_Minh, and with the
    reference year, except that a label of month 12 read while the current
    month is 1 gets the year before. *)
Theorem format_A_label (hs ws ds ms : str) (current_year now_month : Z) :
  is_digits12 hs = true -> ws <> [] -> all_in Space ws ->
  is_digits12 ds = true -> is_digits12 ms = true ->
  valid_fields (year_to_use current_year (int_of_digits ms) now_month)
    (int_of_digits ms) (int_of_digits ds) (int_of_digits hs) 0 = true ->
  exists dt,
    parse_river_dt (hs ++ "h"%char :: ws ++ ds ++ "/"%char :: ms)
      current_year now_month = Ok (Some dt)
    /\ dt_hour dt = int_of_digits hs
    /\ dt_day dt = int_of_digits ds
    /\ dt_month dt = int_of_digits ms
    /\ dt_minute dt = 0
    /\ dt_tzinfo dt = Some (TzFile (L "Asia/Ho_Chi_Minh"))
    /\ (int_of_digits ms = 12 -> now_month = 1 -> dt_year dt = current_year - 1)
    /\ (~ (int_of_digits ms = 12 /\ now_month = 1) -> dt_year dt = current_year).
Proof.
  intros Dh Nw Aw Dd Dm V.
  set (lbl := hs ++ "h"%char :: ws ++ ds ++ "/"%char :: ms).
  assert (By : - 2 ^ 31 < current_year < 2 ^ 31).
  { apply valid_fields_year in V. revert V. unfold year_to_use.
    destruct ((int_of_digits ms =? 12) && (now_month =? 1)); lia. }
  assert (N : lbl <> []).
  { destruct (digits_head hs Dh) as (c & hs' & -> & _). discriminate. }
  assert (S : strip lbl = lbl).
  { unfold lbl.
    replace (hs ++ "h"%char :: ws ++ ds ++ "/"%char :: ms)
      with (hs ++ ("h"%char :: ws ++ ds ++ ["/"%char]) ++ ms).
    - now apply strip_digits.
    - simpl. now rewrite <- !app_assoc. }
  exists (local_datetime (year_to_use current_year (int_of_digits ms) now_month)
            (int_of_digits ms) (int_of_digits ds) (int_of_digits hs) 0).
  split.
  - rewrite (parse_nonempty lbl _ _ N), S, (case_new_eq _ _ _ By).
    unfold lbl. rewrite (search_here _ _ _ (re_new_matches hs ws ds ms Dh Nw Aw Dd Dm)).
    unfold fields_new, group. cbn [m_groups nth]. rewrite V. reflexivity.
  - cbn [local_datetime dt_hour dt_day dt_month dt_minute dt_tzinfo dt_year].
    repeat split; apply year_to_use_cases.
Qed.

(** C5 on the label "0h  15/12" read in January 2025: the timestamp is
    2024-12-15 00:00. *)
Lemma format_A_label_witness :
  exists dt,
    parse_river_dt (L "0h  15/12") 2025 1 = Ok (Some dt)
    /\ dt_hour dt = 0 /\ dt_day dt = 15 /\ dt_month dt = 12 /\ dt_minute dt = 0
    /\ dt_tzinfo dt = Some (TzFile (L "Asia/Ho_Chi_Minh"))
    /\ (12 = 12 -> 1 = 1 -> dt_year dt = 2025 - 1)
    /\ (~ (12 = 12 /\ 1 = 1) -> dt_year dt = 2025).
Proof.
  refine (format_A_label (L "0") (L "  ") (L "15") (L "12") 2025 1
            eq_refl _ _ eq_refl eq_refl eq_refl).
  - discriminate.
  - repeat constructor.
Defined.

(** C6. For a label of Format B -- one or two digits, "h", one or two
    digits, "/", one or two digits, no white space -- the pattern of Case A
    does not match, and when the fields are a constructible date in the
    current month of the reference year [parse_river_dt] returns the
    timestamp with the hour, minute and day of the label, the current local
    month, the reference year as it is, in the zone Asia/Ho_Chi_Minh. *)
Theorem format_B_label (hs mins ds : str) (current_year now_month : Z) :
  is_digits12 hs = true -> is_digits12 mins = true -> is_digits12 ds = true ->
  valid_fields current_year now_month (int_of_digits ds) (int_of_digits hs)
    (int_of_digits mins) = true ->
  search re_new (strip (hs ++ "h"%char :: mins ++ "/"%char :: ds)) = None
  /\ parse_river_dt (hs ++ "h"%char :: mins ++ "/"%char :: ds)
       current_year now_month
     = Ok (Some {| dt_year := current_year;
                   dt_month := now_month;
                   dt_day := int_of_digits ds;
                   dt_hour := int_of_digits hs;
                   dt_minute := int_of_digits mins;
                   dt_tzinfo := Some (TzFile (L "Asia/Ho_Chi_Minh")) |}).
Proof.
  intros Dh Dm Dd V.
  set (lbl := hs ++ "h"%char :: mins ++ "/"%char :: ds).
  assert (By : - 2 ^ 31 < current_year < 2 ^ 31).
  { apply valid_fields_year in V. lia. }
  assert (Bn : - 2 ^ 31 <= now_month < 2 ^ 31).
  { revert V. unfold valid_fields. rewrite !andb_true_iff, !Z.leb_le.
    intros V. lia. }
  assert (N : lbl <> []).
  { destruct (digits_head hs Dh) as (c & hs' & -> & _). discriminate. }
  assert (S : strip lbl = lbl).
  { unfold lbl.
    replace (hs ++ "h"%char :: mins ++ "/"%char :: ds)
      with (hs ++ ("h"%char :: mins ++ ["/"%char]) ++ ds).
    - now apply strip_digits.
    - simpl. now rewrite <- !app_assoc. }
  assert (A : search re_new lbl = None).
  { destruct (search re_new lbl) as [m|] eqn:E; [|reflexivity]. exfalso.
    apply re_new_needs_space in E as (w & I & W). unfold lbl in I.
    apply in_app_or in I as [I|[<-|I]];
      [rewrite (digits_no_space hs w Dh I) in W; discriminate | discriminate |].
    apply in_app_or in I as [I|[<-|I]];
      [rewrite (digits_no_space mins w Dm I) in W; discriminate | discriminate |].
    rewrite (digits_no_space ds w Dd I) in W. discriminate. }
  split; [now rewrite S|].
  rewrite (parse_nonempty lbl _ _ N), S, (case_new_eq _ _ _ By), A. cbn [bind].
  assert (By' : - 2 ^ 31 <= current_year < 2 ^ 31) by lia.
  rewrite (case_old_eq _ _ _ By' Bn).
  unfold lbl. rewrite (search_here _ _ _ (re_old_matches hs mins ds Dh Dm Dd)).
  unfold fields_old, group. cbn [m_groups nth]. rewrite V. reflexivity.
Qed.

(** C6 on the label "7h30/12" read in November 2024: the timestamp is
    2024-11-12 07:30. *)
Lemma format_B_label_witness :
  search re_new (strip (L "7h30/12")) = None
  /\ parse_river_dt (L "7h30/12") 2024 11
     = Ok (Some {| dt_year := 2024; dt_month := 11; dt_day := 12; dt_hour := 7;
                   dt_minute := 30;
                   dt_tzinfo := Some (TzFile (L "Asia/Ho_Chi_Minh")) |}).
Proof.
  exact (format_B_label (L "7") (L "30") (L "12") 2024 11
           eq_refl eq_refl eq_refl eq_refl).
Defined.

(* ================================================================== *)
(** ** Scenarios of the specification, run on the reference runtime *)

(** One river station with labels "0h  15/11" and "1h  15/11", values
    "1.25,1.5" and a first threshold of 1.0, read in November 2024 with a
    window that starts on 2024-11-14: two rows, of tier 1, with distances
    0.25 and 0.5. *)
Example river_station_scenario :
  let d := [(L "bao_dong1", JStr (L "1.0"));
            (L "labels", JStr (L "0h  15/11,1h  15/11"));
            (L "value", JStr (L "1.25,1.5"))] in
  let meta := {| meta_river := L "River"; meta_name := JStr (L "Station");
                 meta_x := JNull; meta_y := JNull |} in
  let config := {| sc_name := None; sc_basin_recode := None |} in
  let start := {| d_year := 2024; d_month := 11; d_day := 14 |} in
  let out := @river_station Ref.runtime start 2024 11 (L "012") meta config d [] in
  snd out = None
  /\ map r_water_level_m (fst out) = [JFloat 1.25%float; JFloat 1.5%float]
  /\ map (fun r => lookup (r_columns r) (L "alert_value")) (fst out)
     = [Some (JInt 1); Some (JInt 1)]
  /\ map (fun r => lookup (r_columns r) (L "alert_diff_m")) (fst out)
     = [Some (JFloat 0.25%float); Some (JFloat 0.5%float)].
Proof. vm_compute. repeat split; reflexivity. Qed.

(** A station whose labels all precede the window start gives no row. *)
Example river_station_before_window :
  let d := [(L "labels", JStr (L "0h  15/11,1h  15/11"));
            (L "value", JStr (L "1.25,-"))] in
  let meta := {| meta_river := L "River"; meta_name := JStr (L "Station");
                 meta_x := JNull; meta_y := JNull |} in
  let config := {| sc_name := None; sc_basin_recode := None |} in
  let start := {| d_year := 2024; d_month := 11; d_day := 16 |} in
  @river_station Ref.runtime start 2024 11 (L "012") meta config d [] = ([], None).
Proof. vm_compute. reflexivity. Qed.

(** A lake record without an update time is kept, with an empty timestamp;
    one updated before the window start is dropped. *)
Example lake_loop_scenario :
  let cfg := [(L "H1", {| lc_name := L "Lake"; lc_basin_recode := L "Basin";
                          lc_province_recode := None |})] in
  let start := {| d_year := 2024; d_month := 11; d_day := 14 |} in
  let undated := [(L "LakeCode", JStr (L "H1"))] in
  let stale := [(L "LakeCode", JStr (L "H1"));
                (L "ThoiGianCapNhat", JStr (L "/Date(1700000000000)/"))] in
  map r_timestamp_utc (@lake_loop Ref.runtime start cfg [undated; stale] [])
  = [None].
Proof. vm_compute. reflexivity. Qed.

(** Resuming: the prior dataset ends on 2024-11-18 and today is 2024-11-20,
    so the window starts on 2024-11-18. *)
Example resume_scenario :
  let stamp_of d hh := {| s_year := 2024; s_month := 11; s_day := d;
                          s_hour := hh; s_minute := 0 |} in
  DEFAULT_START_DATE
    (TimeColumn [Some (stamp_of 17 5); None; Some (stamp_of 18 7); Some (stamp_of 18 1)])
    {| d_year := 2024; d_month := 11; d_day := 20 |}
  = {| d_year := 2024; d_month := 11; d_day := 18 |}.
Proof. reflexivity. Qed.

(** Coherence matters for the order of the steps: for a batch whose
    two rows share a key but not a name, the row kept is the last one in the
    order of the sort, not the last one of the batch. *)
Example merge_sorts_batch_first :
  let row (n : str) (v : Z) :=
    {| r_type := River; r_id := IdStr (L "012"); r_name := JStr n;
       r_basin := JStr (L "Basin"); r_province := JNull;
       r_timestamp_utc := None; r_water_level_m := JInt v;
       r_alert_status := JNull; r_columns := [] |} in
  let incoming := [row (L "b") 1; row (L "a") 2] in
  merge (Some (Ok [])) incoming = Some [row (L "b") 1]
  /\ sort_values (drop_duplicates_last ([] ++ incoming)) = Some [row (L "a") 2].
Proof. split; reflexivity. Qed.

(** A missing name sorts after every text, the empty text before. *)
Example missing_name_sorts_last :
  let row (n : json) :=
    {| r_type := River; r_id := IdStr (L "012"); r_name := n;
       r_basin := JStr (L "Basin"); r_province := JNull;
       r_timestamp_utc := None; r_water_level_m := JNull;
       r_alert_status := JNull; r_columns := [] |} in
  sort_values [row JNull; row (JStr (L "a")); row (JStr [])]
  = Some [row (JStr []); row (JStr (L "a")); row JNull]
  /\ sort_values [row (JInt 1); row (JStr (L "a"))] = None.
Proof. split; reflexivity. Qed.

(* ================================================================== *)
(** ** Further properties of the classifier *)

(** The order of the specification of floats is transitive. *)
Lemma SFleb_trans (x y z : SpecFloat.spec_float) :
  SpecFloat.SFleb x y = true -> SpecFloat.SFleb y z = true ->
  SpecFloat.SFleb x z = true.
Proof.
  unfold SpecFloat.SFleb, SpecFloat.SFcompare.
  destruct x as [sx|sx| |sx mx ex], y as [sy|sy| |sy my ey], z as [sz|sz| |sz mz ez];
    try discriminate; try reflexivity;
    repeat match goal with s : bool |- _ => destruct s end;
    try discriminate; try reflexivity;
    change (PosDef.Pos.compare_cont Eq) with Pos.compare;
    destruct (Z.compare_spec ex ey), (Z.compare_spec ey ez), (Z.compare_spec ex ez);
    try discriminate; try reflexivity; try lia; subst;
    destruct (Pos.compare_spec mx my), (Pos.compare_spec my mz),
      (Pos.compare_spec mx mz);
    simpl; try discriminate; try reflexivity; intros; try lia.
Qed.

Lemma leb_trans (x y z : float) :
  PrimFloat.leb x y = true -> PrimFloat.leb y z = true -> PrimFloat.leb x z = true.
Proof. rewrite !leb_spec. apply SFleb_trans. Qed.

Lemma reached_mono (l1 l2 : float) (t : option float) :
  PrimFloat.leb l1 l2 = true -> reached l1 t = true -> reached l2 t = true.
Proof.
  intros L. unfold reached. destruct t as [x|]; [|now rewrite andb_false_r].
  intros R. apply andb_true_iff in R as [T X]. rewrite T. simpl.
  now apply leb_trans with l1.
Qed.

(** X2. The tier is between 0 and 4 and does not go down when the level goes up:
    for levels [l1 <= l2] (so neither is a nan) and the same thresholds, the
    tier of [l1] is at most the tier of [l2]. *)
Theorem classify_exceed_monotone (l1 l2 : float) (bd1 bd2 bd3 hist : option float) :
  PrimFloat.leb l1 l2 = true ->
  0 <= classify_exceed (Some l1) bd1 bd2 bd3 hist
  <= classify_exceed (Some l2) bd1 bd2 bd3 hist
  /\ classify_exceed (Some l2) bd1 bd2 bd3 hist <= 4.
Proof.
  intros L. unfold classify_exceed.
  pose proof (reached_mono l1 l2 hist L) as M4.
  pose proof (reached_mono l1 l2 bd3 L) as M3.
  pose proof (reached_mono l1 l2 bd2 L) as M2.
  pose proof (reached_mono l1 l2 bd1 L) as M1.
  destruct (reached l1 hist); [rewrite (M4 eq_refl); lia|].
  destruct (reached l1 bd3);
    [rewrite (M3 eq_refl); destruct (reached l2 hist); lia|].
  destruct (reached l1 bd2);
    [rewrite (M2 eq_refl); destruct (reached l2 hist), (reached l2 bd3); lia|].
  destruct (reached l1 bd1);
    [rewrite (M1 eq_refl);
     destruct (reached l2 hist), (reached l2 bd3), (reached l2 bd2); lia|].
  destruct (reached l2 hist), (reached l2 bd3), (reached l2 bd2), (reached l2 bd1);
    lia.
Qed.

(** Monotonicity on the levels 1.5 and 2.5 with thresholds 1, 2, 3: tiers 1
    and 2. *)
Lemma classify_exceed_monotone_witness :
  PrimFloat.leb 1.5%float 2.5%float = true
  /\ 0 <= classify_exceed (Some 1.5%float) (Some 1%float) (Some 2%float)
            (Some 3%float) None
     <= classify_exceed (Some 2.5%float) (Some 1%float) (Some 2%float)
          (Some 3%float) None.
Proof.
  split; [reflexivity|].
  exact (proj1 (classify_exceed_monotone 1.5%float 2.5%float (Some 1%float)
                  (Some 2%float) (Some 3%float) None eq_refl)).
Defined.

(** X3. The distance of a classified level. When the tier handed to
    [calculate_alert_diff] is the one [classify_exceed] gives for the same
    level and thresholds, as in [main], the subtraction never meets a missing
    threshold: the [try] block does not raise, and the distance is absent
    exactly when the level is absent or the tier is 0 with no usable first
    threshold. *)
Theorem calculate_alert_diff_classified `{Runtime}
  (val bd1 bd2 bd3 hist : option float) :
  (forall v, val = Some v ->
             exists r,
               calculate_alert_diff_try (classify_exceed val bd1 bd2 bd3 hist) v
                 bd1 bd2 bd3 hist = Ok r)
  /\ (calculate_alert_diff (classify_exceed val bd1 bd2 bd3 hist) val
        bd1 bd2 bd3 hist = None
      <-> val = None
          \/ (classify_exceed val bd1 bd2 bd3 hist = 0 /\ truthy_opt bd1 = false)).
Proof.
  assert (S : forall l t, reached l t = true -> exists x, t = Some x).
  { intros l [x|]; [now exists x|]. unfold reached. simpl. discriminate. }
  destruct val as [v|]; simpl.
  2:{ split; [intros v'; discriminate|]. split; [now left | reflexivity]. }
  unfold calculate_alert_diff_try.
  destruct (reached v hist) eqn:R4.
  { destruct (S _ _ R4) as (x & ->). simpl.
    split; [intros v' _; eexists; reflexivity|].
    split; [discriminate | intros [E|[E _]]; discriminate]. }
  destruct (reached v bd3) eqn:R3.
  { destruct (S _ _ R3) as (x & ->). simpl.
    split; [intros v' _; eexists; reflexivity|].
    split; [discriminate | intros [E|[E _]]; discriminate]. }
  destruct (reached v bd2) eqn:R2.
  { destruct (S _ _ R2) as (x & ->). simpl.
    split; [intros v' _; eexists; reflexivity|].
    split; [discriminate | intros [E|[E _]]; discriminate]. }
  destruct (reached v bd1) eqn:R1.
  { destruct (S _ _ R1) as (x & ->). simpl.
    split; [intros v' _; eexists; reflexivity|].
    split; [discriminate | intros [E|[E _]]; discriminate]. }
  simpl. destruct (truthy_opt bd1) eqn:T.
  - destruct bd1 as [x|]; [|discriminate]. simpl.
    split; [intros v' _; eexists; reflexivity|].
    split; [discriminate | intros [E|[_ E]]; discriminate].
  - split; [intros v' _; eexists; reflexivity|].
    split; [now right | reflexivity].
Qed.

(* ================================================================== *)
(** ** Further properties of the label parser *)

Lemma lstrip_spaces (ws s : str) : all_in Space ws -> lstrip (ws ++ s) = lstrip s.
Proof.
  induction 1 as [|c ws Hc _ IH]; simpl; [reflexivity|].
  simpl in Hc. now rewrite Hc.
Qed.

Lemma rstrip_spaces (s ws : str) : all_in Space ws -> rstrip (s ++ ws) = rstrip s.
Proof.
  intros A.
  assert (E : rstrip ws = []).
  { induction A as [|c ws Hc _ IH]; simpl; [reflexivity|].
    change (fold_right _ [] ws) with (rstrip ws). rewrite IH.
    simpl in Hc. now rewrite Hc. }
  induction s as [|c s IH]; simpl; [exact E|].
  change (fold_right _ [] (s ++ ws)) with (rstrip (s ++ ws)).
  change (fold_right _ [] s) with (rstrip s). now rewrite IH.
Qed.

Lemma strip_spaces (ws1 lbl ws2 : str) :
  all_in Space ws1 -> all_in Space ws2 -> strip (ws1 ++ lbl ++ ws2) = strip lbl.
Proof.
  intros A1 A2. unfold strip. rewrite (lstrip_spaces ws1 _ A1).
  induction lbl as [|c lbl IH]; simpl.
  - rewrite <- (app_nil_r ws2), (lstrip_spaces ws2 [] A2). reflexivity.
  - destruct (is_space c); [exact IH|].
    now apply (rstrip_spaces (c :: lbl) ws2).
Qed.

(** X4. White space around a label, line breaks included, does not change what
    [parse_river_dt] returns. *)
Theorem parse_river_dt_ignores_margin (ws1 lbl ws2 : str) (current_year now_month : Z) :
  all_in Space ws1 -> all_in Space ws2 ->
  parse_river_dt (ws1 ++ lbl ++ ws2) current_year now_month
  = parse_river_dt lbl current_year now_month.
Proof.
  intros A1 A2.
  assert (B : forall l,
             parse_river_dt l current_year now_month
             = (a <- case_new (strip l) current_year now_month ;;
                match a with
                | Some dt => Ok (Some dt)
                | None => case_old (strip l) current_year now_month
                end)).
  { intros [|c l]; reflexivity. }
  rewrite (B (ws1 ++ lbl ++ ws2)), (B lbl), (strip_spaces ws1 lbl ws2 A1 A2).
  reflexivity.
Qed.

(** The label "0h  15/11" between a blank and a line break. *)
Lemma parse_river_dt_ignores_margin_witness :
  parse_river_dt (L " " ++ L "0h  15/11" ++ ["010"%char]) 2024 11
  = parse_river_dt (L "0h  15/11") 2024 11.
Proof.
  apply (parse_river_dt_ignores_margin (L " ") (L "0h  15/11") ["010"%char] 2024 11);
    repeat constructor.
Defined.

Lemma datetime_new_ok (y m d hh mi : Z) (dt : datetime) :
  datetime_new y m d hh mi = Ok dt ->
  valid_fields y m d hh mi = true
  /\ dt = {| dt_year := y; dt_month := m; dt_day := d; dt_hour := hh;
             dt_minute := mi; dt_tzinfo := None |}.
Proof.
  unfold datetime_new.
  destruct (negb _); [discriminate|].
  destruct (valid_fields y m d hh mi); [|discriminate].
  intros [= <-]. split; reflexivity.
Qed.

Lemma except_ValueError_some {A} (body : res A) (a : A) :
  except_ValueError body = Ok (Some a) -> body = Ok a.
Proof.
  destruct body as [b|[]]; simpl; try discriminate. now intros [= ->].
Qed.

(** X5. Every timestamp [parse_river_dt] returns is a date and time of the
    calendar (year 1 to 9999, a day the month has, hour below 24, minute
    below 60) in the zone Asia/Ho_Chi_Minh; its year is the reference year, or
    the year before for a month 12 read while the current month is 1; and it
    is either on the hour (Case A) or in the current month (Case B). *)
Theorem parse_river_dt_sound (lbl : str) (current_year now_month : Z) (dt : datetime) :
  parse_river_dt lbl current_year now_month = Ok (Some dt) ->
  valid_fields (dt_year dt) (dt_month dt) (dt_day dt) (dt_hour dt) (dt_minute dt)
  = true
  /\ dt_tzinfo dt = Some (TzFile (L "Asia/Ho_Chi_Minh"))
  /\ (dt_year dt = current_year
      \/ (dt_year dt = current_year - 1 /\ dt_month dt = 12 /\ now_month = 1))
  /\ (dt_minute dt = 0 \/ (dt_month dt = now_month /\ dt_year dt = current_year)).
Proof.
  destruct lbl as [|c lbl]; [discriminate|].
  unfold parse_river_dt. set (clean := strip (c :: lbl)).
  destruct (case_new clean current_year now_month) as [[a|]|e] eqn:A;
    cbn [bind]; try discriminate.
  - intros [= ->]. unfold case_new in A.
    destruct (search re_new clean) as [m|]; [|discriminate].
    apply except_ValueError_some in A. cbv zeta in A.
    destruct (datetime_new _ _ _ _ _) as [dt0|] eqn:D; [|discriminate].
    cbn [bind] in A. injection A as <-.
    apply datetime_new_ok in D as [V ->].
    unfold localized, TZ_LOCAL, replace_tzinfo.
    cbn [dt_year dt_month dt_day dt_hour dt_minute dt_tzinfo].
    split; [exact V|]. split; [reflexivity|]. split; [|now left].
    destruct ((int_of_digits (group m 3) =? 12) && (now_month =? 1)) eqn:Y;
      [right | now left].
    apply andb_true_iff in Y as [E F]. apply Z.eqb_eq in E, F. auto.
  - intros B. unfold case_old in B.
    destruct (search re_old clean) as [m|]; [|discriminate].
    apply except_ValueError_some in B. cbv zeta in B.
    destruct (datetime_new _ _ _ _ _) as [dt0|] eqn:D; [|discriminate].
    cbn [bind] in B. injection B as <-.
    apply datetime_new_ok in D as [V ->].
    unfold localized, TZ_LOCAL, replace_tzinfo.
    cbn [dt_year dt_month dt_day dt_hour dt_minute dt_tzinfo].
    split; [exact V|]. split; [reflexivity|]. split; [now left | now right].
Qed.

(** Soundness on the label "0h  15/12" read in January 2025. *)
Lemma parse_river_dt_sound_witness :
  valid_fields 2024 12 15 0 0 = true
  /\ (2024 = 2025 \/ (2024 = 2025 - 1 /\ 12 = 12 /\ 1 = 1)).
Proof.
  pose proof (parse_river_dt_sound (L "0h  15/12") 2025 1
                (local_datetime 2024 12 15 0 0) eq_refl) as S.
  exact (conj (proj1 S) (proj1 (proj2 (proj2 S)))).
Defined.

(* ================================================================== *)
(** ** Properties of the epoch reader *)

Lemma re_digits_not_here (s : str) :
  match s with c :: _ => is_digit c = false | [] => True end ->
  match_here re_digits s = None.
Proof.
  intros N. unfold re_digits. cbn [match_here p_cls p_max].
  destruct s as [|c s]; cbn [run_length cls_test]; [reflexivity|].
  rewrite N. reflexivity.
Qed.

Lemma search_re_digits_none (s : str) :
  (forall c, In c s -> is_digit c = false) -> search re_digits s = None.
Proof.
  induction s as [|c s IH]; intros N.
  - reflexivity.
  - cbn [search]. rewrite re_digits_not_here by (apply N; now left).
    apply IH. intros x I. apply N. now right.
Qed.

Lemma search_re_digits (pre ds post : str) :
  (forall c, In c pre -> is_digit c = false) ->
  all_in Digit ds -> ds <> [] ->
  match post with c :: _ => is_digit c = false | [] => True end ->
  search re_digits (pre ++ ds ++ post) = Some {| m_text := ds; m_groups := [] |}.
Proof.
  intros N A E P. induction pre as [|c pre IH].
  - apply search_here. simpl app.
    assert (M : match_here re_digits (ds ++ post)
                = Some (took (hd digits12 re_digits) ds
                          {| m_text := []; m_groups := [] |})).
    { apply match_here_cons.
      - destruct ds; [congruence | simpl; lia].
      - apply run_length_app; [exact A|]. right. split; [exact I | exact P].
      - reflexivity. }
    rewrite M. unfold took. simpl. now rewrite app_nil_r.
  - simpl app. cbn [search].
    rewrite re_digits_not_here by (apply N; now left).
    apply IH. intros x I. apply N. now right.
Qed.

(** X6. [ms_to_dt_local] reads the first run of digits of the text, whatever
    stands before it and after it, and converts that integer: a field such as
    "/Date(1700000000000)/" is read as 1700000000000 milliseconds. *)
Theorem ms_to_dt_local_first_integer `{Runtime} (pre ds post : str) :
  (forall c, In c pre -> is_digit c = false) ->
  all_in Digit ds -> ds <> [] ->
  match post with c :: _ => is_digit c = false | [] => True end ->
  ms_to_dt_local (JStr (pre ++ ds ++ post)) = local_of_epoch_ms (int_of_digits ds).
Proof.
  intros N A E P. unfold ms_to_dt_local. cbn [py_str].
  rewrite (search_re_digits pre ds post N A E P). reflexivity.
Qed.

(** The field "/Date(1700000000000)/" on the reference runtime: 2023-11-15
    05:13 local time. *)
Lemma ms_to_dt_local_first_integer_witness :
  @ms_to_dt_local Ref.runtime (JStr (L "/Date(" ++ L "1700000000000" ++ L ")/"))
  = Some (local_datetime 2023 11 15 5 13).
Proof.
  refine (eq_trans
            (@ms_to_dt_local_first_integer Ref.runtime (L "/Date(")
               (L "1700000000000") (L ")/") _ _ _ _) _).
  - intros c I. simpl in I.
    repeat (destruct I as [<-|I]; [reflexivity|]). destruct I.
  - repeat constructor.
  - discriminate.
  - reflexivity.
  - vm_compute. reflexivity.
Defined.

(** X7. A field with no digit gives no timestamp: a text without a digit, an
    absent or null field, a boolean. *)
Theorem ms_to_dt_local_without_digit `{Runtime} :
  (forall s, (forall c, In c s -> is_digit c = false) ->
             ms_to_dt_local (JStr s) = None)
  /\ ms_to_dt_local JNull = None
  /\ (forall b, ms_to_dt_local (JBool b) = None)
  /\ (forall rec, lookup rec (L "ThoiGianCapNhat") = None ->
                  ms_to_dt_local (get rec (L "ThoiGianCapNhat")) = None).
Proof.
  split.
  { intros s N. unfold ms_to_dt_local. cbn [py_str].
    now rewrite (search_re_digits_none s N). }
  split; [reflexivity|].
  split; [intros []; reflexivity|].
  intros rec E. unfold get, get_default. rewrite E. reflexivity.
Qed.

(* ================================================================== *)
(** ** Properties of the station loop *)

Lemma parse_value_raises (x : str) `{Runtime} (e : exn) :
  parse_value x = Raise e -> e = ValueError.
Proof.
  unfold parse_value. destruct (negb _); [|discriminate].
  destruct (float_of_str (strip x)); [discriminate|]. now intros [= <-].
Qed.

Lemma mapM_parse_value_fails `{Runtime} (raw : list str) (x : str) :
  In x raw -> parse_value x = Raise ValueError ->
  mapM parse_value raw = Raise ValueError.
Proof.
  induction raw as [|a raw IH]; simpl; [tauto|].
  intros [->|I] E.
  - rewrite E. reflexivity.
  - destruct (parse_value a) as [b|e] eqn:Ea; simpl.
    + rewrite (IH I E). reflexivity.
    + now rewrite (parse_value_raises a e Ea).
Qed.

Lemma rivers_loop_app `{Runtime} (start : date) (y nm : Z)
  (scfg : list (str * station_conf))
  (a b : list (str * (station_meta * option pydict))) (acc : list Row) :
  rivers_loop start y nm scfg (a ++ b) acc
  = rivers_loop start y nm scfg b (rivers_loop start y nm scfg a acc).
Proof.
  revert acc. induction a as [|[sid [meta [d|]]] a IH]; intros acc;
    cbn [rivers_loop app]; auto.
Qed.

(** X8. One value token that is neither a placeholder nor a number makes the
    station give no row at all, whatever its labels and its other values are,
    and the batch is the one the other stations give: the station counts as
    little as one whose request failed. *)
Theorem malformed_station_is_skipped `{Runtime} (start : date) (y nm : Z)
  (scfg : list (str * station_conf))
  (pre post : list (str * (station_meta * option pydict)))
  (sid : str) (meta : station_meta) (d : pydict) (x : str) (acc : list Row) :
  In x (split "," (py_str (get_default d (L "value") (JStr [])))) ->
  ~ In (strip x) placeholders ->
  float_of_str (strip x) = None ->
  (forall config final_rows,
      fst (river_station start y nm sid meta config d final_rows) = final_rows
      /\ snd (river_station start y nm sid meta config d final_rows) <> None)
  /\ rivers_loop start y nm scfg (pre ++ (sid, (meta, Some d)) :: post) acc
     = rivers_loop start y nm scfg (pre ++ post) acc
  /\ rivers_loop start y nm scfg (pre ++ (sid, (meta, None)) :: post) acc
     = rivers_loop start y nm scfg (pre ++ post) acc.
Proof.
  intros I P F.
  assert (E : parse_value x = Raise ValueError).
  { unfold parse_value.
    destruct (existsb (str_eqb (strip x)) placeholders) eqn:X.
    - apply existsb_str_eqb in X. contradiction.
    - simpl. now rewrite F. }
  assert (V : values_of d = Raise ValueError).
  { unfold values_of. now apply mapM_parse_value_fails with x. }
  assert (S : forall config final_rows,
             fst (river_station start y nm sid meta config d final_rows) = final_rows
             /\ snd (river_station start y nm sid meta config d final_rows) <> None).
  { intros config final_rows. unfold river_station. rewrite V.
    destruct (labels_of d); simpl; split; try reflexivity; discriminate. }
  split; [exact S|]. split.
  - rewrite !rivers_loop_app. cbn [rivers_loop].
    now rewrite (proj1 (S _ _)).
  - rewrite !rivers_loop_app. reflexivity.
Qed.

(** A station whose values are "1.5,abc": no row, and a neighbour station
    is read as if it were alone. *)
Lemma malformed_station_is_skipped_witness :
  let start := {| d_year := 2024; d_month := 11; d_day := 14 |} in
  let meta := {| meta_river := L "River"; meta_name := JStr (L "Station");
                 meta_x := JNull; meta_y := JNull |} in
  let bad := [(L "labels", JStr (L "0h  15/11,1h  15/11"));
              (L "value", JStr (L "1.5,abc"))] in
  let good := [(L "labels", JStr (L "0h  15/11")); (L "value", JStr (L "1.5"))] in
  @rivers_loop Ref.runtime start 2024 11 []
    ([] ++ (L "1", (meta, Some bad)) :: [(L "2", (meta, Some good))]) []
  = @rivers_loop Ref.runtime start 2024 11 [] ([] ++ [(L "2", (meta, Some good))]) [].
Proof.
  intros start meta bad good.
  refine (proj1 (proj2 (@malformed_station_is_skipped Ref.runtime start 2024 11 []
                          [] [(L "2", (meta, Some good))] (L "1") meta bad (L "abc")
                          [] _ _ _))).
  - vm_compute. tauto.
  - vm_compute. intros [E|[E|[E|[E|[]]]]]; discriminate.
  - vm_compute. reflexivity.
Defined.

(* ================================================================== *)
(** ** Properties of the batch *)

Lemma river_station_appends `{Runtime} (start : date) (y nm : Z) (sid : str)
  (meta : station_meta) (config : station_conf) (d : pydict) (acc : list Row) :
  exists new,
    fst (river_station start y nm sid meta config d acc) = acc ++ new
    /\ Forall (fun r => r_timestamp_utc r <> None /\ in_window start r) new.
Proof.
  unfold river_station.
  destruct (labels <- labels_of d;; values <- values_of d;; Ok (labels, values))
    as [[labels values]|e].
  - apply river_loop_appends.
  - exists []. split; [now rewrite app_nil_r | constructor].
Qed.

Lemma rivers_loop_appends `{Runtime} (start : date) (y nm : Z)
  (scfg : list (str * station_conf))
  (stations : list (str * (station_meta * option pydict))) (acc : list Row) :
  exists new,
    rivers_loop start y nm scfg stations acc = acc ++ new
    /\ Forall (fun r => r_timestamp_utc r <> None /\ in_window start r) new.
Proof.
  revert acc. induction stations as [|[sid [meta [d|]]] rest IH]; intros acc;
    cbn [rivers_loop].
  - exists []. split; [now rewrite app_nil_r | constructor].
  - destruct (river_station_appends start y nm sid meta (station_conf_of scfg sid)
                d acc) as (new1 & -> & F1).
    destruct (IH (acc ++ new1)) as (new2 & -> & F2).
    exists (new1 ++ new2). split; [now rewrite app_assoc|].
    apply Forall_app. now split.
  - apply IH.
Qed.

(** X9. The batch of the two loops of [main] is the river rows followed by
    the lake rows. Every river row has a timestamp, dated on or after the
    window start, and the text id of a listed station whose request was
    answered. Every lake row has either no timestamp or one dated on or
    after the window start, the text id of a configured lake, and the name
    and basin of the configuration. (Neither loop compares a date with the
    end of the window.) *)
Theorem collect_invariant `{Runtime} (start : date) (y nm : Z)
  (scfg : list (str * station_conf)) (lcfg : list (str * lake_conf))
  (stations : list (str * (station_meta * option pydict)))
  (lake_data : list pydict) :
  exists rivers lakes,
    collect start y nm scfg lcfg stations lake_data = rivers ++ lakes
    /\ rivers = rivers_loop start y nm scfg stations []
    /\ Forall (fun r => r_type r = River
                        /\ (exists st, r_timestamp_utc r = Some st
                                       /\ date_ltb (date_of_stamp st) start = false)
                        /\ exists sid meta d,
                             r_id r = IdStr sid
                             /\ In (sid, (meta, Some d)) stations)
         rivers
    /\ Forall (fun r => r_type r = Lake
                        /\ (r_timestamp_utc r = None
                            \/ exists st, r_timestamp_utc r = Some st
                                          /\ date_ltb (date_of_stamp st) start = false)
                        /\ exists lc conf,
                             r_id r = IdStr lc
                             /\ lookup lcfg lc = Some conf
                             /\ r_name r = JStr (lc_name conf)
                             /\ r_basin r = JStr (lc_basin_recode conf))
         lakes.
Proof.
  unfold collect.
  destruct (rivers_loop_rows start y nm scfg stations []) as (rs & E & FR).
  destruct (rivers_loop_appends start y nm scfg stations []) as (rs' & E' & FW).
  assert (rs' = rs) by (simpl in E, E'; congruence). subst rs'.
  destruct (lake_loop_rows start lcfg lake_data (rivers_loop start y nm scfg stations []))
    as (ls & EL & FL).
  destruct (lake_loop_appends start lcfg lake_data
              (rivers_loop start y nm scfg stations [])) as (ls' & EL' & FLW).
  assert (ls' = ls).
  { rewrite EL in EL'. now apply app_inv_head in EL'. }
  subst ls'.
  exists rs, ls. split; [now rewrite EL, E|]. split; [now rewrite E|].
  rewrite Forall_forall in FR, FW, FL, FLW. split; apply Forall_forall.
  - intros r I. destruct (FR r I) as ([sid [meta resp]] & Is & d & -> & T & Id & _).
    destruct (FW r I) as [S W]. split; [exact T|]. split.
    + destruct (r_timestamp_utc r) as [st|] eqn:Et; [|congruence].
      exists st. split; [reflexivity|]. now apply W.
    + now exists sid, meta, d.
  - intros r I. destruct (FL r I) as (lc & conf & Id & Q & T & Nm & Bs).
    split; [exact T|]. split.
    + pose proof (FLW r I) as W.
      destruct (r_timestamp_utc r) as [st|] eqn:Et; [right|now left].
      exists st. split; [reflexivity|]. now apply W.
    + now exists lc, conf.
Qed.

(* ================================================================== *)
(** ** The calendar between 1970 and 2199 *)

Lemma date_ltb_iff (a b : date) :
  date_ltb a b = true
  <-> d_year a < d_year b
      \/ (d_year a = d_year b
          /\ (d_month a < d_month b
              \/ (d_month a = d_month b /\ d_day a < d_day b))).
Proof.
  unfold date_ltb.
  rewrite !orb_true_iff, !andb_true_iff, !orb_true_iff, !andb_true_iff,
    !Z.ltb_lt, !Z.eqb_eq. reflexivity.
Qed.

Lemma date_ltb_trans (a b c : date) :
  date_ltb a b = true -> date_ltb b c = true -> date_ltb a c = true.
Proof. rewrite !date_ltb_iff. lia. Qed.

Lemma date_ltb_asym (a b : date) : date_ltb a b = true -> date_ltb b a = false.
Proof.
  intros H. destruct (date_ltb b a) eqn:E; [|reflexivity].
  rewrite date_ltb_iff in H, E. lia.
Qed.

Lemma date_ltb_irrefl (a : date) : date_ltb a a = false.
Proof.
  destruct (date_ltb a a) eqn:E; [|reflexivity]. rewrite date_ltb_iff in E. lia.
Qed.

Lemma ascending_from_step (n : nat) (start a : Z) :
  ascending_from start n = true -> start <= a < start + Z.of_nat n ->
  date_ltb (fromordinal a) (fromordinal (a + 1)) = true.
Proof.
  revert start. induction n as [|n IH]; intros start E B; [lia|].
  cbn [ascending_from] in E. apply andb_true_iff in E as [E1 E2].
  destruct (Z.eq_dec a start) as [->|N]; [exact E1|].
  apply (IH (start + 1)); [exact E2 | lia].
Qed.

(** Later ordinals denote later dates. *)
Lemma fromordinal_ascending (a b : Z) :
  719000 <= a -> a < b -> b <= 803200 ->
  date_ltb (fromordinal a) (fromordinal b) = true.
Proof.
  intros La Lab Lb.
  assert (Step : forall c, 719000 <= c < 803200 ->
                        date_ltb (fromordinal c) (fromordinal (c + 1)) = true).
  { intros c B. apply (ascending_from_step (Z.to_nat 84200) 719000).
    - vm_compute. reflexivity.
    - rewrite Z2Nat.id; lia. }
  replace b with (a + 1 + Z.of_nat (Z.to_nat (b - a - 1))) by lia.
  assert (U : a + 1 + Z.of_nat (Z.to_nat (b - a - 1)) <= 803200) by lia.
  induction (Z.to_nat (b - a - 1)) as [|k IH].
  - rewrite Z.add_0_r. apply Step. lia.
  - apply date_ltb_trans with (fromordinal (a + 1 + Z.of_nat k)).
    + apply IH. lia.
    + replace (a + 1 + Z.of_nat (S k)) with (a + 1 + Z.of_nat k + 1) by lia.
      apply Step. lia.
Qed.

Lemma fromordinal_leb (a b : Z) :
  719000 <= a <= 803200 -> 719000 <= b <= 803200 ->
  date_leb (fromordinal a) (fromordinal b) = (a <=? b).
Proof.
  intros Ba Bb. unfold date_leb.
  destruct (Z.leb_spec a b) as [L|L].
  - destruct (Z.eq_dec a b) as [->|N]; [now rewrite date_ltb_irrefl|].
    rewrite (date_ltb_asym _ _ (fromordinal_ascending a b ltac:(lia) ltac:(lia)
                                  ltac:(lia))). reflexivity.
  - rewrite (fromordinal_ascending b a ltac:(lia) ltac:(lia) ltac:(lia)).
    reflexivity.
Qed.

Lemma valid_date_bounds (d : date) :
  valid_date d = true -> 1 <= d_month d <= 12 /\ 1 <= d_day d <= 31.
Proof.
  unfold valid_date, days_in_month. rewrite !andb_true_iff, !Z.leb_le.
  intros [[[M1 M2] D1] D2]. split; [lia|]. split; [lia|].
  destruct (d_month d =? 2); [destruct (is_leap (d_year d)); lia|].
  destruct (_ || _); lia.
Qed.

Lemma years_round_trip_spec (n : nat) (y0 : Z) (d : date) :
  years_round_trip y0 n = true ->
  y0 <= d_year d < y0 + Z.of_nat n -> valid_date d = true ->
  fromordinal (toordinal d) = d.
Proof.
  revert y0. induction n as [|n IH]; intros y0 E B V; [lia|].
  cbn [years_round_trip] in E. apply andb_true_iff in E as [E1 E2].
  destruct (Z.eq_dec (d_year d) y0) as [Y|N]; [|apply (IH (y0 + 1)); [exact E2|lia|exact V]].
  destruct (valid_date_bounds d V) as [Bm Bd].
  rewrite forallb_forall in E1.
  specialize (E1 (Z.to_nat (d_month d))).
  rewrite Z2Nat.id in E1 by lia.
  assert (E3 : month_round_trips y0 (d_month d) = true).
  { apply E1. apply in_seq. lia. }
  unfold month_round_trips in E3. rewrite forallb_forall in E3.
  specialize (E3 (Z.to_nat (d_day d))).
  rewrite Z2Nat.id in E3 by lia.
  assert (E4 := E3 ltac:(apply in_seq; lia)). clear E3.
  cbv zeta in E4. destruct d as [y m k]. cbn [d_year d_month d_day] in *.
  subst y0. rewrite V in E4. cbn [negb orb] in E4.
  rewrite !andb_true_iff, !Z.eqb_eq in E4. destruct E4 as [[Ey Em] Ek].
  destruct (fromordinal _) as [y' m' k']. cbn [d_year d_month d_day] in *.
  congruence.
Qed.

(** A date of the years 1970 to 2199 is the date of its ordinal. *)
Lemma date_round_trip (d : date) :
  1970 <= d_year d <= 2199 -> valid_date d = true -> fromordinal (toordinal d) = d.
Proof.
  intros B V. apply (years_round_trip_spec 230 1970).
  - vm_compute. reflexivity.
  - lia.
  - exact V.
Qed.

(* ================================================================== *)
(** ** Properties of the scan of the lake provider *)

Lemma days_from_length (n : nat) (c : Z) : List.length (days_from c n) = n.
Proof. revert c. induction n as [|n IH]; intros c; simpl; auto. Qed.

Lemma days_from_last (n : nat) (c : Z) (d : date) :
  last (days_from c (S n)) d = fromordinal (c + Z.of_nat n).
Proof.
  revert c. induction n as [|n IH]; intros c.
  - simpl. now rewrite Z.add_0_r.
  - change (days_from c (S (S n))) with (fromordinal c :: days_from (c + 1) (S n)).
    change (last (fromordinal c :: days_from (c + 1) (S n)) d)
      with (last (days_from (c + 1) (S n)) d).
    rewrite IH. f_equal. lia.
Qed.

Lemma scan_loop_days (cfg : list (str * lake_conf)) (post : date -> option (list pydict))
  (n : nat) (c e : Z) (fuel : nat) (results : list pydict) :
  719000 < c -> e < 803200 -> Z.of_nat n = e + 1 - c -> (n < fuel)%nat ->
  scan_loop cfg post fuel (fromordinal c) (fromordinal e) results
  = Some (fold_left (fun r d => scan_day cfg post d r) (days_from c n) results).
Proof.
  revert c fuel results. induction n as [|n IH]; intros c fuel results Bc Be En Lf;
    (destruct fuel as [|fuel]; [lia|]); cbn [scan_loop days_from fold_left].
  - rewrite fromordinal_leb by lia.
    destruct (Z.leb_spec c e); [lia | reflexivity].
  - rewrite fromordinal_leb by lia.
    destruct (Z.leb_spec c e); [|lia].
    unfold date_plus_days. rewrite ordinal_round_trip by lia.
    rewrite (IH (c + 1)) by lia. reflexivity.
Qed.

(** X10. The scan asks the provider for each day of the window once, oldest
    first, from the start date to the end date, and stops: for a window of
    [n] days any fuel above [n] gives the same result, the day blocks run in
    order over the dates of the ordinals from the one of the start date to the
    one of the end date. *)
Theorem scan_visits_window (cfg : list (str * lake_conf))
  (post : date -> option (list pydict)) (fuel : nat) (start_date end_date : date) :
  1970 <= d_year start_date <= 2199 -> valid_date start_date = true ->
  1970 <= d_year end_date <= 2199 -> valid_date end_date = true ->
  date_leb start_date end_date = true ->
  (Z.to_nat (toordinal end_date + 1 - toordinal start_date) < fuel)%nat ->
  let days := days_from (toordinal start_date)
                (Z.to_nat (toordinal end_date + 1 - toordinal start_date)) in
  scan_lakes_via_api cfg post fuel start_date end_date
  = Some (fold_left (fun r d => scan_day cfg post d r) days [])
  /\ Z.of_nat (List.length days) = toordinal end_date - toordinal start_date + 1
  /\ hd end_date days = start_date
  /\ last days start_date = end_date.
Proof.
  intros Ys Vs Ye Ve W F days.
  pose proof (date_round_trip start_date Ys Vs) as Rs.
  pose proof (date_round_trip end_date Ye Ve) as Re.
  destruct (valid_date_bounds start_date Vs) as [Ms Ds].
  destruct (valid_date_bounds end_date Ve) as [Me De].
  pose proof (toordinal_bounds start_date Ys Ms Ds) as Bs.
  pose proof (toordinal_bounds end_date Ye Me De) as Be.
  assert (L : toordinal start_date <= toordinal end_date).
  { rewrite <- Rs, <- Re, fromordinal_leb in W by lia. now apply Z.leb_le. }
  subst days.
  set (n := Z.to_nat (toordinal end_date + 1 - toordinal start_date)) in *.
  assert (N : Z.of_nat n = toordinal end_date + 1 - toordinal start_date).
  { unfold n. rewrite Z2Nat.id; lia. }
  split.
  - unfold scan_lakes_via_api. rewrite <- Rs at 1. rewrite <- Re at 1.
    apply scan_loop_days; lia.
  - split; [rewrite days_from_length; lia|].
    destruct n as [|k] eqn:K; [lia|]. split.
    + cbn [days_from hd]. exact Rs.
    + rewrite days_from_last.
      replace (toordinal start_date + Z.of_nat k) with (toordinal end_date) by lia.
      exact Re.
Qed.

(** The window 2024-11-14 .. 2024-11-16 on a provider that answers nothing:
    three days, no record. *)
Lemma scan_visits_window_witness :
  let s := {| d_year := 2024; d_month := 11; d_day := 14 |} in
  let e := {| d_year := 2024; d_month := 11; d_day := 16 |} in
  scan_lakes_via_api [] (fun _ => None) 4 s e = Some []
  /\ Z.of_nat (List.length (days_from (toordinal s) 3)) = 3.
Proof.
  intros s e.
  pose proof (scan_visits_window [] (fun _ => None) 4 s e
                ltac:(simpl; lia) eq_refl ltac:(simpl; lia) eq_refl eq_refl
                ltac:(vm_compute; lia)) as [S [N _]].
  split; [exact S | exact N].
Defined.

Lemma scan_records_appends (cfg : list (str * lake_conf)) (recs results : list pydict) :
  exists new,
    scan_records cfg recs results = results ++ new
    /\ Forall (fun rec =>
                 In rec recs
                 /\ exists lc conf,
                      get rec (L "LakeCode") = JStr lc /\ lookup cfg lc = Some conf)
         new.
Proof.
  revert results. induction recs as [|rec recs IH]; intros results;
    cbn [scan_records].
  - exists []. split; [now rewrite app_nil_r | constructor].
  - assert (K : forall acc,
               exists new,
                 scan_records cfg recs acc = acc ++ new
                 /\ Forall (fun r =>
                              In r (rec :: recs)
                              /\ exists lc conf,
                                   get r (L "LakeCode") = JStr lc
                                   /\ lookup cfg lc = Some conf) new).
    { intros acc. destruct (IH acc) as (new & E & F). exists new.
      split; [exact E|]. eapply Forall_impl; [|exact F].
      intros r [I X]. split; [now right | exact X]. }
    destruct (get rec (L "LakeCode")) as [|b|n|x|code|l|kv] eqn:G;
      cbn [in_LAKE_IDS];
      try apply K;
      try (exists []; split; [now rewrite app_nil_r | constructor]).
    destruct (lookup cfg code) as [conf|] eqn:Q; [|apply K].
    destruct (K (results ++ [rec])) as (new & -> & F).
    exists (rec :: new). split; [now rewrite <- app_assoc|].
    constructor; [|exact F]. split; [now left|]. now exists code, conf.
Qed.

Lemma scan_loop_appends (cfg : list (str * lake_conf))
  (post : date -> option (list pydict)) (fuel : nat) (curr end_date : date)
  (results out : list pydict) :
  scan_loop cfg post fuel curr end_date results = Some out ->
  exists new,
    out = results ++ new
    /\ Forall (fun rec =>
                 (exists day recs, post day = Some recs /\ In rec recs)
                 /\ exists lc conf,
                      get rec (L "LakeCode") = JStr lc /\ lookup cfg lc = Some conf)
         new.
Proof.
  revert curr results. induction fuel as [|fuel IH]; intros curr results;
    cbn [scan_loop]; [discriminate|].
  destruct (date_leb curr end_date).
  - intros E. apply IH in E as (new & -> & F). unfold scan_day.
    destruct (post curr) as [recs|] eqn:P; [|now exists new].
    destruct (scan_records_appends cfg recs results) as (new1 & -> & F1).
    exists (new1 ++ new). split; [now rewrite app_assoc|].
    apply Forall_app. split; [|exact F].
    eapply Forall_impl; [|exact F1]. intros r [I X]. split; [|exact X].
    now exists curr, recs.
  - intros [= <-]. exists []. split; [now rewrite app_nil_r | constructor].
Qed.

(** X11. Whatever the provider answers, the scan returns only records it was
    given on some day of the window, each with a lake code that is a key of
    the configuration: the membership test of the lake loop of [main] holds
    for every scanned record. *)
Theorem scan_gives_configured_records (cfg : list (str * lake_conf))
  (post : date -> option (list pydict)) (fuel : nat) (start_date end_date : date)
  (results : list pydict) :
  scan_lakes_via_api cfg post fuel start_date end_date = Some results ->
  Forall (fun rec =>
            (exists day recs, post day = Some recs /\ In rec recs)
            /\ exists lc conf,
                 lake_entry cfg (get rec (L "LakeCode")) = Some (lc, conf))
    results.
Proof.
  intros E. apply (scan_loop_appends cfg) in E as (new & -> & F).
  cbn [app]. eapply Forall_impl; [|exact F].
  intros rec [P (lc & conf & G & Q)]. split; [exact P|].
  exists lc, conf. unfold lake_entry. now rewrite G, Q.
Qed.

(** One day on which the provider lists the configured lake H1, the unknown
    lake H2, a record whose code is an array, and H1 again: the scan keeps the
    first record and the array ends the day. *)
Lemma scan_gives_configured_records_witness :
  let conf := {| lc_name := L "Lake"; lc_basin_recode := L "Basin";
                 lc_province_recode := None |} in
  let rec_of code := [(L "LakeCode", code)] in
  let day := {| d_year := 2024; d_month := 11; d_day := 14 |} in
  let answer := [rec_of (JStr (L "H1")); rec_of (JStr (L "H2"));
                 rec_of (JArr []); rec_of (JStr (L "H1"))] in
  scan_lakes_via_api [(L "H1", conf)] (fun _ => Some answer) 2 day day
  = Some [rec_of (JStr (L "H1"))]
  /\ Forall (fun rec =>
               (exists d recs, (fun _ : date => Some answer) d = Some recs
                               /\ In rec recs)
               /\ exists lc c,
                    lake_entry [(L "H1", conf)] (get rec (L "LakeCode"))
                    = Some (lc, c))
       [rec_of (JStr (L "H1"))].
Proof.
  intros conf rec_of day answer.
  assert (E : scan_lakes_via_api [(L "H1", conf)] (fun _ => Some answer) 2 day day
              = Some [rec_of (JStr (L "H1"))]) by (vm_compute; reflexivity).
  split; [exact E|].
  exact (scan_gives_configured_records [(L "H1", conf)] (fun _ => Some answer) 2
           day day [rec_of (JStr (L "H1"))] E).
Defined.

(* ================================================================== *)
(** ** The window and the scan together *)

Lemma start_date_cases (csv : csv_meta) (today : date) :
  DEFAULT_START_DATE csv today = date_minus_days today 6
  \/ (exists ts,
        latest_timestamp csv = Some ts
        /\ date_ltb today (date_of_stamp ts) = false
        /\ DEFAULT_START_DATE csv today = date_of_stamp ts).
Proof.
  unfold DEFAULT_START_DATE, DEFAULT_END_DATE, latest_timestamp.
  destruct csv as [| |col]; auto.
  destruct (column_max col) as [ts|]; auto.
  destruct (date_ltb today (date_of_stamp ts)) eqn:W; auto.
  right. now exists ts.
Qed.

(** X12. For a today between 1970 and 2199 the window is never inverted: the
    start date is not after the end date, so the scan asks for today at
    least. When the start date is the fallback (no prior timestamp, or one
    dated after today) the scan asks for exactly seven days, the six days
    before today and today, oldest first. *)
Theorem window_never_inverted (csv : csv_meta) (today : date) :
  1970 <= d_year today <= 2199 -> valid_date today = true ->
  date_leb (DEFAULT_START_DATE csv today) (DEFAULT_END_DATE today) = true
  /\ (DEFAULT_START_DATE csv today = date_minus_days today 6 ->
      forall cfg post fuel,
        (7 < fuel)%nat ->
        scan_lakes_via_api cfg post fuel (DEFAULT_START_DATE csv today)
          (DEFAULT_END_DATE today)
        = Some (fold_left (fun r d => scan_day cfg post d r)
                  (days_from (toordinal today - 6) 7) [])
        /\ last (days_from (toordinal today - 6) 7) today = today).
Proof.
  intros Y V.
  pose proof (date_round_trip today Y V) as R.
  destruct (valid_date_bounds today V) as [Bm Bd].
  pose proof (toordinal_bounds today Y Bm Bd) as B.
  assert (F : date_leb (date_minus_days today 6) today = true).
  { unfold date_minus_days. rewrite <- R at 2. rewrite fromordinal_leb by lia.
    apply Z.leb_le. lia. }
  split.
  - destruct (start_date_cases csv today) as [->|(ts & _ & W & ->)].
    + exact F.
    + unfold DEFAULT_END_DATE, date_leb. now rewrite W.
  - intros -> cfg post fuel L. unfold DEFAULT_END_DATE. split.
    + unfold scan_lakes_via_api, date_minus_days. rewrite <- R at 2.
      apply scan_loop_days; lia.
    + rewrite days_from_last.
      replace (toordinal today - 6 + Z.of_nat 6) with (toordinal today) by lia.
      exact R.
Qed.

(** The first run of 2024-11-20: the window is not inverted. *)
Lemma window_never_inverted_witness :
  date_leb (DEFAULT_START_DATE NoFile {| d_year := 2024; d_month := 11; d_day := 20 |})
    (DEFAULT_END_DATE {| d_year := 2024; d_month := 11; d_day := 20 |}) = true.
Proof.
  exact (proj1 (window_never_inverted NoFile
                  {| d_year := 2024; d_month := 11; d_day := 20 |}
                  ltac:(simpl; lia) eq_refl)).
Defined.

(* ================================================================== *)
(** ** A payload with a missing field *)

Lemma river_loop_length `{Runtime} (start : date) (y nm : Z) (sid : str)
  (meta : station_meta) (config : station_conf) (d : pydict)
  (pairs : list (str * option float)) (acc : list Row) :
  exists new,
    fst (river_loop start y nm sid meta config d pairs acc) = acc ++ new
    /\ (List.length new <= List.length pairs)%nat
    /\ Forall (fun r => exists val, In val (map snd pairs)
                                    /\ r_water_level_m r = cell val) new.
Proof.
  revert acc. induction pairs as [|[lbl val] rest IH]; intros acc;
    cbn [river_loop fst].
  - exists []. split; [now rewrite app_nil_r|]. split; [simpl; lia | constructor].
  - assert (K : forall acc',
               exists new,
                 fst (river_loop start y nm sid meta config d rest acc') = acc' ++ new
                 /\ (List.length new <= List.length ((lbl, val) :: rest))%nat
                 /\ Forall (fun r => exists v, In v (map snd ((lbl, val) :: rest))
                                               /\ r_water_level_m r = cell v) new).
    { intros acc'. destruct (IH acc') as (new & E & Ln & F). exists new.
      split; [exact E|]. split; [simpl; lia|].
      eapply Forall_impl; [|exact F]. intros r (v & I & W).
      exists v. split; [now right | exact W]. }
    destruct (parse_river_dt lbl y nm) as [[dt|]|e].
    + destruct (date_ltb (date_of dt) start); [apply K|].
      destruct (IH (acc ++ [river_row sid meta config d dt val])) as (new & E & Ln & F).
      exists (river_row sid meta config d dt val :: new). split.
      * rewrite E, <- app_assoc. reflexivity.
      * split; [simpl; lia|]. constructor.
        -- exists val. split; [now left | reflexivity].
        -- eapply Forall_impl; [|exact F]. intros r (v & I & W).
           exists v. split; [now right | exact W].
    + apply K.
    + exists []. split; [now rewrite app_nil_r|]. split; [simpl; lia | constructor].
Qed.

(** X13. A station gives at most one row per aligned pair of label and value, so
    never more rows than labels or than values. A payload without the labels
    field gives no row; its [try] block ends with the exception of the value
    parser when a value token is malformed, and without one otherwise. A
    payload without the value field gives at most one row, and that row has
    an empty level. *)
Theorem river_station_missing_fields `{Runtime} (start : date) (y nm : Z)
  (sid : str) (meta : station_meta) (config : station_conf) (d : pydict)
  (acc : list Row) :
  (forall labels values,
      labels_of d = Ok labels -> values_of d = Ok values ->
      exists new,
        fst (river_station start y nm sid meta config d acc) = acc ++ new
        /\ (List.length new <= List.length labels)%nat
        /\ (List.length new <= List.length values)%nat)
  /\ (lookup d (L "labels") = None ->
      river_station start y nm sid meta config d acc
      = (acc, match values_of d with
              | Ok _ => None
              | Raise e => Some e
              end))
  /\ (lookup d (L "value") = None ->
      exists new,
        fst (river_station start y nm sid meta config d acc) = acc ++ new
        /\ (List.length new <= 1)%nat
        /\ Forall (fun r => r_water_level_m r = JNull) new).
Proof.
  split; [|split].
  - intros labels values El Ev. unfold river_station. rewrite El, Ev. cbn [bind].
    destruct (river_loop_length start y nm sid meta config d (combine labels values) acc)
      as (new & E & Ln & _).
    exists new. split; [exact E|]. rewrite length_combine in Ln. lia.
  - intros E. unfold river_station, labels_of, get, get_default. rewrite E.
    cbn [truthy bind split].
    destruct (values_of d) as [values|e]; cbn [bind]; [|reflexivity].
    destruct values as [|v values]; reflexivity.
  - intros E.
    assert (V : values_of d = Ok [None]).
    { unfold values_of, get_default. rewrite E. reflexivity. }
    unfold river_station. rewrite V.
    destruct (labels_of d) as [labels|e]; cbn [bind].
    + destruct (river_loop_length start y nm sid meta config d (combine labels [None]) acc)
        as (new & En & Ln & F).
      exists new. split; [exact En|]. split.
      * rewrite length_combine in Ln. simpl in Ln. lia.
      * eapply Forall_impl; [|exact F]. intros r (v & I & W).
        rewrite W. destruct labels as [|l labels]; simpl in I; [tauto|].
        destruct I as [<-|I]; [reflexivity|]. destruct labels; destruct I.
    + exists []. split; [now rewrite app_nil_r|]. split; [simpl; lia | constructor].
Qed.
